(** * nvenc-server: the browser front end and the command-execution contract

    The repository is a React front end ([src/App.tsx] and the components
    under [src/components/]) in front of a Flask service ([app.py]) that runs
    FFmpeg.  The front end is embedded here function by function; the service
    itself is not part of the sources at hand, so the two parts of it that
    are reasoned about (template validation and the execution gate) are
    modelled from the specification and marked as such.

    Part I holds the definitions, Part II the lemmas and theorems. *)

From Stdlib Require Import Floats Ascii.
From stdpp Require Import gmap strings list pretty.

#[local] Set Warnings "-clear-no-such-hyp".

(* ===================================================================== *)
(** * Part I.  Definitions                                                *)
(* ===================================================================== *)

(** ** Strings

    Strings are byte strings (UTF-8).  Every pattern the program searches
    for is ASCII, and an ASCII byte never occurs inside a multi-byte UTF-8
    sequence, so prefix tests, substring search and emptiness agree with
    what the engine computes on UTF-16 code units. *)

(** [s.startsWith(p)] *)
Definition startsWith (s p : string) : bool := String.prefix p s.

(** The offsets at which [pat] occurs in [s], in increasing order. *)
Fixpoint positions (pat s : string) : list nat :=
  (if String.prefix pat s then [0] else []) ++
  match s with
  | EmptyString => []
  | String _ r => S <$> positions pat r
  end.

(** [pat] occurs in [s] at offset [i]. *)
Definition occurs_at (pat s : string) (i : nat) : Prop :=
  ∃ before after, s = before +:+ pat +:+ after ∧ String.length before = i.

(** [pat] occurs in [s], and at one offset only. *)
Definition occurs_exactly_once (pat s : string) : Prop :=
  ∃ i, occurs_at pat s i ∧ ∀ j, occurs_at pat s j → j = i.

(** How often [pat] occurs in [s]. *)
Definition occurrences (pat s : string) : nat := length (positions pat s).

(** [s.includes(pat)] *)
Definition includes (s pat : string) : bool :=
  bool_decide (positions pat s ≠ []).

(** [!!s] for a string [s]. *)
Definition nonempty (s : string) : bool :=
  match s with EmptyString => false | String _ _ => true end.

(** Removal of leading and of trailing white space. *)
Fixpoint trimStart (s : string) : string :=
  match s with
  | EmptyString => EmptyString
  | String c r => if Ascii.is_space c then trimStart r else s
  end.

Definition trimEnd (s : string) : string :=
  String.rev (trimStart (String.rev s)).

Definition trim (s : string) : string := trimEnd (trimStart s).

(** The first white-space delimited word of [s], if it has one. *)
Definition first_word (s : string) : option string := head (String.words s).

(** ** JavaScript values

    [data] in [handleProcess] has type [any]: it is whatever [JSON.parse]
    made of the response body.  Numbers are IEEE 754 doubles. *)

#[warnings="-register-all"]
Inductive JSValue : Type :=
| JUndefined
| JNull
| JBool (b : bool)
| JNum (x : float)
| JStr (s : string)
| JArr (l : list JSValue)
| JObj (m : gmap string JSValue).

(** The two number renderings the program relies on are the engine's
    ([Number::toString] and [Number.prototype.toFixed]); everything below is
    stated for an arbitrary engine. *)
Class Engine : Type := {
  Number_toString : float → string;
  Number_toFixed : float → nat → string
}.

(** [ToBoolean]: [undefined], [null], [false], [0], [-0], [NaN] and the empty
    string are falsy, everything else (every object and array) is truthy. *)
Definition truthy (v : JSValue) : bool :=
  match v with
  | JUndefined | JNull => false
  | JBool b => b
  | JNum x => negb (PrimFloat.eqb x 0) && PrimFloat.eqb x x
  | JStr s => nonempty s
  | JArr _ | JObj _ => true
  end.

(** [typeof v === 'number'] *)
Definition is_number (v : JSValue) : bool :=
  match v with JNum _ => true | _ => false end.

(** [v.k] for one of the keys the program reads ([download_url],
    [download_path], [duration_ms], [message], [error]).  On [null] and
    [undefined] the access throws a [TypeError] ([None]); none of these keys
    is inherited from a prototype, so on a primitive or an array the result
    is [undefined], and on an object it is the own property if there is one. *)
Definition get (v : JSValue) (k : string) : option JSValue :=
  match v with
  | JUndefined | JNull => None
  | JObj m => Some (default JUndefined (m !! k))
  | JBool _ | JNum _ | JStr _ | JArr _ => Some JUndefined
  end.

Section Conversions.
Context {E : Engine}.

(** [ToString], as a template literal applies it to an interpolated value.
    An array is joined with commas, [null] and [undefined] elements
    rendering as nothing.  A plain object renders as [[object Object]]
    through [Object.prototype.toString]; when it has an own property
    [toString] (which, coming from JSON, is not callable) the conversion
    falls through to [valueOf], gets no primitive, and throws a
    [TypeError] ([None]). *)
Fixpoint ToString (v : JSValue) : option string :=
  match v with
  | JUndefined => Some "undefined"
  | JNull => Some "null"
  | JBool true => Some "true"
  | JBool false => Some "false"
  | JNum x => Some (Number_toString x)
  | JStr s => Some s
  | JArr l =>
      (fix join (l : list JSValue) : option string :=
         let element (v : JSValue) : option string :=
           match v with
           | JUndefined | JNull => Some ""
           | _ => ToString v
           end in
         match l with
         | [] => Some ""
         | [v] => element v
         | v :: r => s ← element v; t ← join r; Some (s +:+ "," +:+ t)
         end) l
  | JObj m => if decide (is_Some (m !! "toString")) then None
              else Some "[object Object]"
  end.
End Conversions.

(** ** A reference engine

    The two renderings as ECMA-262 defines them, computed on exact integers:
    [Number::toString] for radix 10 and [Number.prototype.toFixed].  A finite
    non-zero double is [m * 2^e] with the mantissa [m] and the exponent [e]
    that [Prim2SF] gives.  The closed examples of Part II run on this
    engine; the theorems hold for every engine. *)

Section ReferenceEngine.
Local Open Scope Z_scope.

(** The exact value [sc_num * 10^sc_ten * 2^sc_two]. *)
Record Scaled : Type := mkScaled { sc_num : Z; sc_ten : Z; sc_two : Z }.

(** The numerators of two such values over their common powers. *)
Definition aligned (u v : Scaled) : Z * Z :=
  let ten := Z.min (sc_ten u) (sc_ten v) in
  let two := Z.min (sc_two u) (sc_two v) in
  (sc_num u * 10 ^ (sc_ten u - ten) * 2 ^ (sc_two u - two),
   sc_num v * 10 ^ (sc_ten v - ten) * 2 ^ (sc_two v - two)).

Definition scaled_compare (u v : Scaled) : comparison :=
  let '(a, b) := aligned u v in a ?= b.

Definition scaled_ltb (u v : Scaled) : bool :=
  match scaled_compare u v with Lt => true | _ => false end.

Definition scaled_leb (u v : Scaled) : bool :=
  match scaled_compare u v with Gt => false | _ => true end.

(** The distance of [u] and [v], in units of the common powers. *)
Definition scaled_distance (u v : Scaled) : Z :=
  let '(a, b) := aligned u v in Z.abs (a - b).

Definition zeros (n : nat) : string :=
  String.string_of_list_ascii (replicate n "0"%char).

(** The decimal digits of a natural number. *)
Definition digits (n : Z) : string := pretty (Z.to_N n).

Fixpoint take_chars (n : nat) (s : string) : string :=
  match n, s with
  | S n, String c r => String c (take_chars n r)
  | _, _ => ""
  end.

Fixpoint drop_chars (n : nat) (s : string) : string :=
  match n, s with
  | S n, String _ r => drop_chars n r
  | _, _ => s
  end.

(** The [n] with [10^(n-1) <= x < 10^n], searched upwards from [n]. *)
Fixpoint magnitude_from (fuel : nat) (n : Z) (x : Scaled) : Z :=
  match fuel with
  | O => n
  | S fuel =>
      if scaled_ltb x (mkScaled 1 n 0) then n else magnitude_from fuel (n + 1) x
  end.

(** The search starts below the answer: [x >= 2^l] for [l] the binary
    logarithm of [x], and 0.30103 is just above the decimal logarithm of 2. *)
Definition magnitude (m : positive) (e : Z) : Z :=
  magnitude_from 8 ((Z.log2 (Z.pos m) + e) * 30103 / 100000 - 1)
    (mkScaled (Z.pos m) 0 e).

(** Whether the real number [v] rounds to the double [m * 2^e] (to nearest,
    ties to even): it lies between the midpoints to the neighbouring
    doubles, the midpoints included when [m] is even.  The neighbour below
    is half as far away when [m] is the least mantissa of its binade. *)
Definition reads_back (m : positive) (e : Z) (v : Scaled) : bool :=
  let below := if (Z.pos m =? 2 ^ 52) && (-1074 <? e)
               then 4 * Z.pos m - 1 else 4 * Z.pos m - 2 in
  let lower := mkScaled below 0 (e - 2) in
  let upper := mkScaled (4 * Z.pos m + 2) 0 (e - 2) in
  if Z.even (Z.pos m) then scaled_leb lower v && scaled_leb v upper
  else scaled_ltb lower v && scaled_ltb v upper.

(** A decimal [s * 10^(n-k)] with [k] digits that reads back as the double,
    if there is one: the candidates are the two [k]-digit decimals around
    it, the nearer one wins, the even one on a tie. *)
Definition candidate (m : positive) (e n k : Z) : option (Z * Z) :=
  let x := mkScaled (Z.pos m) 0 e in
  let q := n - k in
  let s_lo := Z.pos m * 2 ^ Z.max e 0 * 10 ^ Z.max (- q) 0
              / (2 ^ Z.max (- e) 0 * 10 ^ Z.max q 0) in
  let s_hi := s_lo + 1 in
  let lo := mkScaled s_lo q 0 in
  let hi := mkScaled s_hi q 0 in
  let normal (s : Z) := if s =? 10 ^ k then (10 ^ (k - 1), n + 1) else (s, n) in
  match reads_back m e lo, reads_back m e hi with
  | true, true =>
      match scaled_distance lo x ?= scaled_distance hi x with
      | Lt => Some (normal s_lo)
      | Gt => Some (normal s_hi)
      | Eq => Some (normal (if Z.even s_lo then s_lo else s_hi))
      end
  | true, false => Some (normal s_lo)
  | false, true => Some (normal s_hi)
  | false, false => None
  end.

(** The least number of digits [k] with such a decimal; 17 always do. *)
Fixpoint shortest_from (m : positive) (e n : Z) (fuel : nat) (k : Z) : Z * Z * Z :=
  match fuel with
  | O => (k, 0, 0)
  | S fuel =>
      match candidate m e n k with
      | Some (s, n') => (k, s, n')
      | None => shortest_from m e n fuel (k + 1)
      end
  end.

Definition shortest (m : positive) (e : Z) : Z * Z * Z :=
  shortest_from m e (magnitude m e) 17 1.

(** [Number::toString] of the positive finite double [m * 2^e]. *)
Definition render_positive (m : positive) (e : Z) : string :=
  let '(k, s, n) := shortest m e in
  let ds := digits s in
  let exponent := (if 0 <=? n - 1 then "+" else "-") +:+ digits (Z.abs (n - 1)) in
  if (k <=? n) && (n <=? 21) then ds +:+ zeros (Z.to_nat (n - k))
  else if (0 <? n) && (n <=? 21)
  then take_chars (Z.to_nat n) ds +:+ "." +:+ drop_chars (Z.to_nat n) ds
  else if (-6 <? n) && (n <=? 0) then "0." +:+ zeros (Z.to_nat (- n)) +:+ ds
  else if k =? 1 then ds +:+ "e" +:+ exponent
  else take_chars 1 ds +:+ "." +:+ drop_chars 1 ds +:+ "e" +:+ exponent.

Definition Number_toString_ecma (x : float) : string :=
  match Prim2SF x with
  | S754_nan => "NaN"
  | S754_zero _ => "0"
  | S754_infinity false => "Infinity"
  | S754_infinity true => "-Infinity"
  | S754_finite false m e => render_positive m e
  | S754_finite true m e => "-" +:+ render_positive m e
  end.

(** [n / 10^f] written with [f] fraction digits. *)
Definition fixed_point (f : nat) (n : Z) : string :=
  let m := digits n in
  match f with
  | O => m
  | S _ =>
      let m := zeros (S f - String.length m) +:+ m in
      let k := String.length m in
      take_chars (k - f) m +:+ "." +:+ drop_chars (k - f) m
  end.

(** [x.toFixed(f)] for [f] up to 100: the integer [n] with [n / 10^f]
    nearest to [x], the larger one on a tie; from [10^21] on, and for a
    value that is not finite, it is [Number::toString]. *)
Definition Number_toFixed_ecma (x : float) (f : nat) : string :=
  match Prim2SF x with
  | S754_nan | S754_infinity _ => Number_toString_ecma x
  | S754_zero _ => fixed_point f 0
  | S754_finite sign m e =>
      (if sign then "-" else "") +:+
      (if scaled_leb (mkScaled 1 21 0) (mkScaled (Z.pos m) 0 e)
       then render_positive m e
       else fixed_point f
              (if 0 <=? e then Z.pos m * 2 ^ e * 10 ^ Z.of_nat f
               else (2 * Z.pos m * 10 ^ Z.of_nat f + 2 ^ (- e)) / 2 ^ (1 - e)))
  end.

End ReferenceEngine.

Definition ecma : Engine :=
  {| Number_toString := Number_toString_ecma;
     Number_toFixed := Number_toFixed_ecma |}.

(** ** The front end: component state and props *)

(** A browser [File]: its name, its MIME type and its content. *)
Record File : Type := mkFile {
  file_name : string;
  file_type : string;
  file_bytes : list Byte.byte
}.

Inductive Status : Type := success | error | info.

(** The [result] state of [App]: every field is optional.  At run time
    [message] and [downloadUrl] hold whatever was stored in them, which for
    a value taken from [data] need not be a string. *)
Record Result : Type := mkResult {
  status : option Status;
  message : JSValue;
  downloadUrl : JSValue
}.

(** [App]'s five [useState] cells. *)
Record AppState : Type := mkApp {
  file : option File;
  command : string;
  outputFilename : string;
  isProcessing : bool;
  result : Result
}.

Definition initial : AppState :=
  {| file := None; command := ""; outputFilename := "";
     isProcessing := false;
     result := mkResult None JUndefined JUndefined |}.

Definition setFile (f : option File) (s : AppState) : AppState :=
  mkApp f (command s) (outputFilename s) (isProcessing s) (result s).
Definition setCommand (c : string) (s : AppState) : AppState :=
  mkApp (file s) c (outputFilename s) (isProcessing s) (result s).
Definition setOutputFilename (o : string) (s : AppState) : AppState :=
  mkApp (file s) (command s) o (isProcessing s) (result s).
Definition setIsProcessing (b : bool) (s : AppState) : AppState :=
  mkApp (file s) (command s) (outputFilename s) b (result s).
Definition setResult (r : Result) (s : AppState) : AppState :=
  mkApp (file s) (command s) (outputFilename s) (isProcessing s) r.

(** ** CommandInput.tsx *)

Record Preset : Type := mkPreset { preset_name : string; preset_command : string }.

Definition commonCommands : list Preset := [
  mkPreset "H.264 编码"
    "ffmpeg -y -i {input} -c:v libx264 -b:v 4M -c:a aac {output}";
  mkPreset "H.265 编码"
    "ffmpeg -y -i {input} -c:v libx265 -b:v 4M -c:a aac {output}";
  mkPreset "NVENC H.264"
    "ffmpeg -y -i {input} -c:v h264_nvenc -b:v 4M -c:a aac {output}";
  mkPreset "NVENC H.265"
    "ffmpeg -y -i {input} -c:v hevc_nvenc -b:v 4M -c:a aac {output}";
  mkPreset "压缩视频"
    "ffmpeg -y -i {input} -c:v libx264 -crf 23 -c:a aac {output}";
  mkPreset "提取音频"
    "ffmpeg -y -i {input} -vn -acodec copy {output}";
  mkPreset "转码为MP4"
    "ffmpeg -y -i {input} -c copy {output}"
].

(** The invariants of a command template, on the raw string. *)
Definition well_formed_template (c : string) : Prop :=
  first_word c = Some "ffmpeg"
  ∧ occurs_exactly_once "{input}" c
  ∧ occurs_exactly_once "{output}" c.

(** ** FileUpload.tsx *)

(** What a handler of [FileUpload] does: it calls [onFileChange], or shows
    an alert, or neither. *)
Inductive UploadAction : Type :=
| OnFileChange (f : option File)
| Alert (text : string)
| NoAction.

Definition is_video (f : File) : bool := startsWith (file_type f) "video/".

(** [handleDrop], on the files of the drag event. *)
Definition handleDrop (droppedFiles : list File) : UploadAction :=
  match droppedFiles with
  | videoFile :: _ =>
      if is_video videoFile then OnFileChange (Some videoFile)
      else Alert "请上传视频文件"
  | [] => NoAction
  end.

(** [handleFileSelect], on [e.target.files] ([None] for [null]). *)
Definition handleFileSelect (selectedFiles : option (list File)) : UploadAction :=
  match selectedFiles with
  | Some (videoFile :: _) =>
      if is_video videoFile then OnFileChange (Some videoFile)
      else Alert "请上传视频文件"
  | Some [] | None => NoAction
  end.

Definition clearFile : UploadAction := OnFileChange None.

(** [App] passes [setFile] as [onFileChange]. *)
Definition apply_upload (a : UploadAction) (s : AppState) : AppState :=
  match a with
  | OnFileChange f => setFile f s
  | Alert _ | NoAction => s
  end.

(** ** OutputFilenameInput.tsx *)

(** The character class [[^/.]]. *)
Definition extension_char (c : ascii) : bool :=
  negb (bool_decide (c = "/"%char)) && negb (bool_decide (c = "."%char)).

Fixpoint all_extension_chars (s : string) : bool :=
  match s with
  | EmptyString => true
  | String c r => extension_char c && all_extension_chars r
  end.

(** Whether [/\.[^/.]+$/] matches [s] from its first character on: a dot,
    then one or more characters of the class, then the end of the input. *)
Definition extension_here (s : string) : bool :=
  match s with
  | String c r =>
      bool_decide (c = "."%char) && nonempty r && all_extension_chars r
  | EmptyString => false
  end.

(** [name.replace(/\.[^/.]+$/, '')]: the leftmost match is cut out; it
    reaches the end of the input, so nothing follows it. *)
Fixpoint strip_extension (name : string) : string :=
  if extension_here name then ""
  else match name with
       | EmptyString => ""
       | String c r => String c (strip_extension r)
       end.

(** The body of the effect: [Some v] when it calls
    [onOutputFilenameChange(v)], [None] when it does nothing. *)
Definition outputFilename_effect (file : option File) (outputFilename : string)
  : option string :=
  match file with
  | Some f =>
      if negb (nonempty outputFilename) then
        let baseName := strip_extension (file_name f) in
        Some (baseName +:+ "_processed.mp4")
      else None
  | None => None
  end.

(** ** ProcessControl.tsx and the guard of App.tsx *)

(** [!!(file && command && outputFilename)] *)
Definition canProcess (s : AppState) : bool :=
  bool_decide (is_Some (file s)) && nonempty (command s)
  && nonempty (outputFilename s).

(** The [disabled] attribute of the process button. *)
Definition process_disabled (s : AppState) : bool :=
  negb (canProcess s) || isProcessing s.

(** ** App.tsx: the request and what comes back *)

Inductive FormValue : Type :=
| FormFile (f : File)
| FormText (s : string).

(** The arguments of [fetch]: the URL and, from the options object, the
    method, the headers and the [FormData] body in append order. *)
Record Request : Type := mkRequest {
  url : string;
  method : string;
  headers : list (string * string);
  body : list (string * FormValue)
}.

(** What reading the body of a response yields: a failure (the promise of
    [response.json()] or [response.text()] rejects), or the text, together
    with the value that text denotes as JSON when it is valid JSON.  The
    parser is the engine's; nothing below depends on how the two relate. *)
Inductive Body : Type :=
| BodyFailed
| BodyRead (text : string) (json : option JSValue).

(** A [Response]: its status, its [content-type] header ([None] when the
    header is missing, for which [headers.get] gives [null]) and its body. *)
Record Response : Type := mkResponse {
  http_status : nat;
  content_type : option string;
  response_body : Body
}.

(** [response.ok]: the status is in the range 200 to 299. *)
Definition ok (r : Response) : bool :=
  bool_decide (200 ≤ http_status r ≤ 299).

(** How the promise of [fetch] settles.  It rejects when the network fails,
    and also when [fetch] refuses its arguments before sending anything, as
    it does for a header value with a line break inside it or a character
    beyond Latin-1. *)
Inductive FetchOutcome : Type :=
| Rejected
| Resolved (response : Response).

(** [await response.json()]; [None] when it throws. *)
Definition response_json (r : Response) : option JSValue :=
  match response_body r with
  | BodyRead _ (Some v) => Some v
  | BodyRead _ None | BodyFailed => None
  end.

(** [await response.text()]; [None] when it throws. *)
Definition response_text (r : Response) : option string :=
  match response_body r with
  | BodyRead text _ => Some text
  | BodyFailed => None
  end.

(** [try { data = JSON.parse(text); } catch { data = { message: text }; }] *)
Definition parse_or_wrap (r : Response) (text : string) : JSValue :=
  match response_body r with
  | BodyRead _ (Some v) => v
  | BodyRead _ None | BodyFailed => JObj {[ "message" := JStr text ]}
  end.

(** Lines 42-49: the payload [data]; [None] when an exception escapes. *)
Definition read_data (r : Response) : option JSValue :=
  let contentType := default "" (content_type r) in
  if includes contentType "application/json" then response_json r
  else text ← response_text r; Some (parse_or_wrap r text).

(** [data.download_url || data.download_path] *)
Definition download_reference (data : JSValue) : option JSValue :=
  u ← get data "download_url";
  if truthy u then Some u else get data "download_path".

Definition network_error : Result :=
  mkResult (Some error) (JStr "网络错误，请确保后端服务已启动") JUndefined.

Section HandleProcess.
Context {E : Engine}.

(** [`耗时 ${(ms / 1000).toFixed(2)}s`] *)
Definition elapsed_text (ms : float) : string :=
  "耗时 " +:+ Number_toFixed (ms / 1000)%float 2 +:+ "s".

(** Line 52:
    [data.download_url || (data.download_path ? `/api${data.download_path}` : undefined)] *)
Definition reference_url (data : JSValue) : option JSValue :=
  u ← get data "download_url";
  if truthy u then Some u
  else p ← get data "download_path";
       if truthy p then s ← ToString p; Some (JStr ("/api" +:+ s))
       else Some JUndefined.

(** Lines 52-59: the result of the success branch. *)
Definition success_result (data : JSValue) : option Result :=
  url ← reference_url data;
  d ← get data "duration_ms";
  let ms := match d with JNum x => Some x | _ => None end in
  let secText := match ms with Some x => elapsed_text x | None => "" end in
  Some {| status := Some success;
          message := JStr (if nonempty secText
                           then "视频处理完成！" +:+ secText
                           else "视频处理完成！");
          downloadUrl := url |}.

(** [`处理失败 (HTTP ${response.status})`] *)
Definition fallback_message (r : Response) : string :=
  "处理失败 (HTTP " +:+ pretty (http_status r) +:+ ")".

(** Lines 61-64: the result of the failure branch.  The condition
    [data.message && typeof data.duration_ms === 'number'] reads
    [duration_ms] only when the message is truthy; reading it first makes no
    difference, since a property access that succeeded on [data] once
    succeeds again. *)
Definition failure_result (r : Response) (data : JSValue) : option Result :=
  m ← get data "message";
  d ← get data "duration_ms";
  first ← (match d with
           | JNum ms =>
               if truthy m
               then s ← ToString m; Some (JStr (s +:+ "，" +:+ elapsed_text ms))
               else Some m
           | _ => Some m
           end);
  msg ← (if truthy first then Some first
         else e ← get data "error";
              if truthy e then Some e else Some (JStr (fallback_message r)));
  Some {| status := Some error; message := msg; downloadUrl := JUndefined |}.

(** Line 51: [response.ok && (data.download_url || data.download_path)],
    as a boolean; [None] when the property access throws. *)
Definition carries_reference (r : Response) (data : JSValue) : option bool :=
  if ok r then truthy <$> download_reference data else Some false.

(** The [try] block from line 42 on, once [fetch] has resolved. *)
Definition on_response (r : Response) : option Result :=
  data ← read_data r;
  carries ← carries_reference r data;
  if carries : bool then success_result data else failure_result r data.

(** The single [setResult] that one settled request leads to: the one of
    the [try] block, or the one of the [catch] clause when [fetch] rejects
    or anything in the block throws. *)
Definition settled_result (o : FetchOutcome) : Result :=
  match o with
  | Rejected => network_error
  | Resolved r => default network_error (on_response r)
  end.
End HandleProcess.

(** [handleProcess] is an [async] function with one call of [fetch].  It
    either returns at once (the guard), or runs up to [await fetch(...)]
    with the request that call describes, and is resumed when it settles. *)
Inductive Started : Type :=
| Returned (s : AppState)
| Awaiting (s : AppState) (request : Request).

Definition upload_request (f : File) (command outputFilename : string) : Request :=
  {| url := "/api/upload";
     method := "POST";
     headers := [("X-Command", command)];
     body := [("file", FormFile f);
              ("command", FormText command);
              ("output_filename", FormText outputFilename)] |}.

(** Lines 22-40. *)
Definition handleProcess (s : AppState) : Started :=
  match file s with
  | Some f =>
      if negb (nonempty (command s)) || negb (nonempty (outputFilename s))
      then Returned s
      else
        let s1 := setIsProcessing true s in
        let s2 := setResult (mkResult (Some info) (JStr "正在上传文件...") JUndefined) s1 in
        Awaiting s2 (upload_request f (command s) (outputFilename s))
  | None => Returned s
  end.


(** Lines 42-73: the resumption, on the state at that moment. *)
Definition handleProcess_settled {E : Engine} (o : FetchOutcome) (s : AppState) : AppState :=
  setIsProcessing false (setResult (settled_result o) s).

(** ** The page as a transition system

    One event is one handler call followed by the re-render it causes; the
    effect of [OutputFilenameInput] runs after every render.  A control that
    is not rendered or is disabled delivers no event: the drop zone and the
    file input exist only while no file is held, the clear button only while
    one is, and the process button only fires while it is enabled.  The two
    download buttons open a window and change no state; they are left out. *)
Inductive Event : Type :=
| DropFiles (files : list File)
| SelectFiles (files : option (list File))
| ClearFile
| EditCommand (c : string)
| PickPreset (index : nat)
| EditOutputFilename (o : string)
| ClickProcess
| RequestSettled (o : FetchOutcome).

Record Page : Type := mkPage {
  app : AppState;
  in_flight : list Request
}.

Definition run_effects (s : AppState) : AppState :=
  match outputFilename_effect (file s) (outputFilename s) with
  | Some v => setOutputFilename v s
  | None => s
  end.

Definition handle {E : Engine} (p : Page) (e : Event) : Page :=
  let s := app p in
  match e with
  | DropFiles files =>
      if file s is None then mkPage (apply_upload (handleDrop files) s) (in_flight p) else p
  | SelectFiles files =>
      if file s is None then mkPage (apply_upload (handleFileSelect files) s) (in_flight p) else p
  | ClearFile =>
      if file s is Some _ then mkPage (apply_upload clearFile s) (in_flight p) else p
  | EditCommand c => mkPage (setCommand c s) (in_flight p)
  | PickPreset index =>
      match commonCommands !! index with
      | Some cmd => mkPage (setCommand (preset_command cmd) s) (in_flight p)
      | None => p
      end
  | EditOutputFilename o => mkPage (setOutputFilename o s) (in_flight p)
  | ClickProcess =>
      if process_disabled s then p
      else match handleProcess s with
           | Returned s' => mkPage s' (in_flight p)
           | Awaiting s' request => mkPage s' (in_flight p ++ [request])
           end
  | RequestSettled o =>
      match in_flight p with
      | [] => p
      | _ :: rest => mkPage (handleProcess_settled o s) rest
      end
  end.

Definition step {E : Engine} (p : Page) (e : Event) : Page :=
  let p' := handle p e in mkPage (run_effects (app p')) (in_flight p').

Definition mounted : Page := mkPage (run_effects initial) [].

Definition run {E : Engine} (events : list Event) : Page := foldl step mounted events.

(** ** The service: template validation

    [app.py] is not among the sources; what follows is written from the
    specification (sections 4.3 to 4.5 and 6). *)

Module Template.

(** Modelled from the spec: the error taxonomy of section 7. *)
Inductive ErrorKind : Type :=
| StorageError | InvalidPathError | UploadError | JobNotFoundError
| JobAlreadyBoundError | TemplateError | NotFoundError.

(** The required executable-invocation token. *)
Definition required_token : string := "ffmpeg".

(** Modelled from the spec: [validate] of the Command Template Engine
    (section 4.3), which lives in the absent [app.py].  It fails with
    [TemplateError] unless (a) the string, after trimming leading and
    trailing white space, begins with the required token, (b) [{input}]
    occurs exactly once and (c) [{output}] occurs exactly once. *)
Definition validate (raw : string) : ErrorKind + string :=
  if startsWith (trim raw) required_token
     && bool_decide (occurrences "{input}" raw = 1)
     && bool_decide (occurrences "{output}" raw = 1)
  then inr raw
  else inl TemplateError.

(** Modelled from the spec: the Execution Result of section 3. *)
Record ExecutionResult : Type := mkExecutionResult {
  exit_code : Z;
  stdout : string;
  stderr : string;
  duration_ms : nat;
  output_path : string
}.

(** Modelled from the spec: the failure and the success payload of the
    [process] operation (section 6). *)
Inductive Reply : Type :=
| Failure (e : ErrorKind)
| Completed (r : ExecutionResult).

Section Pipeline.
(** The tokenisation policy and the external process are left open by
    the specification. *)
Variable bind : string → string → string → list string.
Variable run_process : list string → ExecutionResult.

(** Modelled from the spec: the [process] operation of section 6 from
    [validate] on (validate, bind, acquire/run/release), as a function
    to the reply and the argument vectors of the processes it spawned. *)
Definition process (raw input_path output_path : string)
  : Reply * list (list string) :=
  match validate raw with
  | inl e => (Failure e, [])
  | inr template =>
      let argv := bind template input_path output_path in
      (Completed (run_process argv), [argv])
  end.
End Pipeline.

(** What the specification's sentence (a) says of a raw string. *)
Definition begins_with_token (raw : string) : Prop :=
  ∃ rest, trim raw = required_token +:+ rest.

End Template.

(** ** The service: the execution gate *)

Module Gate.

(** Modelled from the spec: the two modes of the Execution Gate (section
    4.4), fixed at startup. *)
Inductive Mode : Type := serial | unrestricted.

(** Modelled from the spec: where a [process] request stands in
    acquire/run/release (section 6).  It waits for the gate, holds it, has
    its external process running, has seen it exit, has released. *)
Inductive Phase : Type := Queued | Holding | Running | Exited | Released.

(** Modelled from the spec: the gate's single global lock, and the
    requests in progress, each with the job it is for.  The lock is one for
    all jobs, so the job plays no part in what the gate lets through. *)
Record State : Type := mkState {
  locked : bool;
  phases : gmap nat Phase;
  job_of : gmap nat string
}.

Definition idle : State := mkState false ∅ ∅.

Inductive Action : Type :=
| Arrive (request : nat) (job : string)
| Acquire (request : nat)
| Start (request : nat)
| Exit (request : nat)
| Release (request : nat).

Definition set_phase (i : nat) (ph : Phase) (st : State) : State :=
  mkState (locked st) (<[i := ph]> (phases st)) (job_of st).

Definition set_locked (b : bool) (st : State) : State :=
  mkState b (phases st) (job_of st).

(** Modelled from the spec: the Execution Gate of sections 4.4 and 5
    (in the absent [app.py]) around the Process Executor.  In serial mode
    [acquire] goes through only when the single global lock is free and
    takes it, and [release] frees it; in unrestricted mode both are
    no-ops.  [None] means the action cannot happen in that state (a
    blocked [acquire] included). *)
Definition step (mode : Mode) (st : State) (a : Action) : option State :=
  match a with
  | Arrive i job =>
      match phases st !! i with
      | None => Some (mkState (locked st) (<[i := Queued]> (phases st))
                        (<[i := job]> (job_of st)))
      | Some _ => None
      end
  | Acquire i =>
      match phases st !! i, mode with
      | Some Queued, serial =>
          if locked st then None
          else Some (set_locked true (set_phase i Holding st))
      | Some Queued, unrestricted => Some (set_phase i Holding st)
      | _, _ => None
      end
  | Start i =>
      match phases st !! i with
      | Some Holding => Some (set_phase i Running st)
      | _ => None
      end
  | Exit i =>
      match phases st !! i with
      | Some Running => Some (set_phase i Exited st)
      | _ => None
      end
  | Release i =>
      match phases st !! i, mode with
      | Some Exited, serial => Some (set_locked false (set_phase i Released st))
      | Some Exited, unrestricted => Some (set_phase i Released st)
      | _, _ => None
      end
  end.

(** A schedule is an interleaving of the requests' actions. *)
Fixpoint exec (mode : Mode) (st : State) (schedule : list Action) : option State :=
  match schedule with
  | [] => Some st
  | a :: rest => st' ← step mode st a; exec mode st' rest
  end.

(** The states a schedule goes through, the first and the last included:
    the time line on which the execution windows lie. *)
Fixpoint trace (mode : Mode) (st : State) (schedule : list Action)
  : option (list State) :=
  match schedule with
  | [] => Some [st]
  | a :: rest => st' ← step mode st a; (st ::.) <$> trace mode st' rest
  end.

(** The request's external process is inside its execution window. *)
Definition running (st : State) (i : nat) : Prop := phases st !! i = Some Running.

(** Two requests whose execution windows overlap in [st]. *)
Definition overlap (st : State) : Prop :=
  ∃ i j, i ≠ j ∧ running st i ∧ running st j.

(** The same, for requests against different jobs. *)
Definition overlap_across_jobs (st : State) : Prop :=
  ∃ i j a b, job_of st !! i = Some a ∧ job_of st !! j = Some b ∧ a ≠ b
             ∧ running st i ∧ running st j.

(** The request holds the gate: from the return of [acquire] to [release]. *)
Definition inside (st : State) (i : nat) : Prop :=
  phases st !! i = Some Holding ∨ phases st !! i = Some Running
  ∨ phases st !! i = Some Exited.

(** The invariant of serial mode: at most one request is inside, and none
    when the lock is free. *)
Definition exclusive (st : State) : Prop :=
  (∀ i j, inside st i → inside st j → i = j)
  ∧ (locked st = false → ∀ i, ¬ inside st i).

(** Two requests, both past [acquire] and both started. *)
Definition two_at_once : list Action :=
  [Arrive 1 "job-a"; Arrive 2 "job-b"; Acquire 1; Acquire 2; Start 1; Start 2].

(** One request after the other. *)
Definition one_by_one : list Action :=
  [Arrive 1 "job-a"; Arrive 2 "job-b"; Acquire 1; Start 1; Exit 1; Release 1;
   Acquire 2; Start 2; Exit 2; Release 2].

End Gate.

(** ** Payloads as the service documents them *)



(** ** Invariants of the page *)

(** At most one request is in flight, and [isProcessing] says whether one is. *)
Definition flag_tracks (p : Page) : Prop :=
  (in_flight p = [] ∧ isProcessing (app p) = false)
  ∨ (∃ request, in_flight p = [request] ∧ isProcessing (app p) = true).

(** The held file is [null] or a video. *)
Definition holds_video (s : AppState) : Prop :=
  ∀ f, file s = Some f → is_video f = true.

(** ** Sample inputs for the closed examples of Part II *)

Definition clip : File :=
  mkFile "clip.mp4" "video/mp4" [Byte.x00; Byte.x00; Byte.x00; Byte.x18].

Definition notes : File := mkFile "notes.txt" "text/plain" [].

Definition h264 : string :=
  "ffmpeg -y -i {input} -c:v libx264 -crf 23 -c:a aac {output}".

(** [s] between double quotes, for JSON texts. *)
Definition quoted (s : string) : string :=
  String (ascii_of_nat 34) s +:+ String (ascii_of_nat 34) "".




(** A failed run reported under [error], with its duration. *)
Definition failed_run : Response :=
  {| http_status := 500;
     content_type := Some "application/json";
     response_body :=
       BodyRead ("{" +:+ quoted "error" +:+ ": " +:+ quoted "ffmpeg exited with code 1"
                 +:+ ", " +:+ quoted "duration_ms" +:+ ": 1234}")
         (Some (JObj {[ "error" := JStr "ffmpeg exited with code 1";
                        "duration_ms" := JNum 1234 ]})) |}.

(** A failed run reported under [message], with its duration. *)
Definition failed_run_message : Response :=
  {| http_status := 500;
     content_type := Some "application/json";
     response_body :=
       BodyRead ("{" +:+ quoted "message" +:+ ": " +:+ quoted "ffmpeg failed"
                 +:+ ", " +:+ quoted "duration_ms" +:+ ": 250}")
         (Some (JObj {[ "message" := JStr "ffmpeg failed";
                        "duration_ms" := JNum 250 ]})) |}.

(** The success response of the README. *)
Definition processed : Response :=
  {| http_status := 200;
     content_type := Some "application/json";
     response_body :=
       BodyRead ("{" +:+ quoted "status" +:+ ": " +:+ quoted "success" +:+ ", "
                 +:+ quoted "message" +:+ ": " +:+ quoted "ok" +:+ ", "
                 +:+ quoted "download_path" +:+ ": " +:+ quoted "/download/j1/out.mp4"
                 +:+ ", " +:+ quoted "duration_ms" +:+ ": 1234}")
         (Some (JObj {[ "status" := JStr "success"; "message" := JStr "ok";
                        "download_path" := JStr "/download/j1/out.mp4";
                        "duration_ms" := JNum 1234 ]})) |}.


(** A video is selected, a preset is picked, the process button is clicked. *)
Definition upload_clicked : list Event :=
  [SelectFiles (Some [clip]); PickPreset 4; ClickProcess].

(** The page while that upload is in flight. *)
Definition uploading : Page := run (E := ecma) upload_clicked.

(** ** ProcessControl.tsx: what is rendered *)

Inductive ButtonIcon : Type := Play | Loader2.

(** The process button (its [disabled] attribute, the variable part of its
    class, its icon and its label), whether the download button is there,
    and whether the progress bar is. *)
Record ControlView : Type := mkControlView {
  button_disabled : bool;
  button_class : string;
  button_icon : ButtonIcon;
  button_label : string;
  download_shown : bool;
  progress_bar : bool
}.

Definition ProcessControl (isProcessing canProcess : bool) (downloadUrl : JSValue)
  : ControlView :=
  {| button_disabled := negb canProcess || isProcessing;
     button_class := if negb canProcess || isProcessing
                     then "bg-gray-300 text-gray-500 cursor-not-allowed"
                     else "bg-blue-600 text-white hover:bg-blue-700";
     button_icon := if isProcessing then Loader2 else Play;
     button_label := if isProcessing then "处理中..." else "开始处理";
     download_shown := truthy downloadUrl;
     progress_bar := isProcessing |}.

(** ** ResultDisplay.tsx *)

Inductive Icon : Type := CheckCircle | XCircle | AlertCircle.

#[global] Instance Status_eq_dec : EqDecision Status.
Proof. solve_decision. Defined.

(** [getIcon]: the icon and its class. *)
Definition getIcon (status : option Status) : Icon * string :=
  match status with
  | Some success => (CheckCircle, "h-5 w-5 text-green-500")
  | Some error => (XCircle, "h-5 w-5 text-red-500")
  | Some info | None => (AlertCircle, "h-5 w-5 text-blue-500")
  end.

Definition getBgColor (status : option Status) : string :=
  match status with
  | Some success => "bg-green-50 border-green-200 text-green-800"
  | Some error => "bg-red-50 border-red-200 text-red-800"
  | Some info | None => "bg-blue-50 border-blue-200 text-blue-800"
  end.

(** The element the component returns: the class of the panel, the icon,
    the message as it was passed (it becomes the child of the paragraph:
    React shows a string as text and refuses a plain object), and whether
    the download button is there. *)
Record ResultView : Type := mkResultView {
  panel_class : string;
  panel_icon : Icon * string;
  panel_message : JSValue;
  panel_download : bool
}.

(** [None] is the [null] of lines 17-19. *)
Definition ResultDisplay (status : option Status) (message downloadUrl : JSValue)
  : option ResultView :=
  if negb (bool_decide (is_Some status)) && negb (truthy message) then None
  else Some {| panel_class := "border rounded-lg p-4 " +:+ getBgColor status;
               panel_icon := getIcon status;
               panel_message := message;
               panel_download := truthy downloadUrl
                                 && bool_decide (status = Some success) |}.

(** ** App.tsx: the download action and what is rendered *)

(** [handleDownload]: the arguments of [window.open], if it is called. *)
Definition handleDownload (s : AppState) : option (JSValue * string) :=
  if truthy (downloadUrl (result s)) then Some (downloadUrl (result s), "_blank")
  else None.

(** Lines 110-116. *)
Definition control_view (s : AppState) : ControlView :=
  ProcessControl (isProcessing s) (canProcess s) (downloadUrl (result s)).

(** Lines 119-126: [{result.message && (<ResultDisplay ... />)}]. *)
Definition result_panel (s : AppState) : option ResultView :=
  if truthy (message (result s))
  then ResultDisplay (status (result s)) (message (result s)) (downloadUrl (result s))
  else None.

(** The result [handleProcess] stores before it calls [fetch] (line 26). *)
Definition uploading_result : Result :=
  mkResult (Some info) (JStr "正在上传文件...") JUndefined.

(** The result cell holds what it held at the start, or the upload notice
    while the one request is in flight, or what the last request settled
    to. *)
Definition result_tracks {E : Engine} (p : Page) : Prop :=
  (in_flight p = [] ∧ isProcessing (app p) = false
   ∧ (result (app p) = result initial ∨ ∃ o, result (app p) = settled_result o))
  ∨ (∃ request, in_flight p = [request] ∧ isProcessing (app p) = true
                ∧ result (app p) = uploading_result).

(** The colour a status is shown in. *)
Definition colour_of (status : option Status) : string :=
  match status with
  | Some success => "green"
  | Some error => "red"
  | Some info | None => "blue"
  end.

(** A gateway's error page. *)
Definition bad_gateway : Response :=
  {| http_status := 502;
     content_type := Some "text/html";
     response_body := BodyRead "<html>502 Bad Gateway</html>" None |}.

(** A truncated body that is declared as JSON. *)
Definition truncated_json : Response :=
  {| http_status := 200;
     content_type := Some "application/json";
     response_body := BodyRead "{" None |}.

(** A success response with both references. *)
Definition processed_with_url : Response :=
  {| http_status := 200;
     content_type := Some "application/json";
     response_body :=
       BodyRead ("{" +:+ quoted "download_url" +:+ ": "
                 +:+ quoted "http://127.0.0.1:5000/download/j1/out.mp4" +:+ ", "
                 +:+ quoted "download_path" +:+ ": " +:+ quoted "/download/j1/out.mp4"
                 +:+ "}")
         (Some (JObj {[ "download_url" := JStr "http://127.0.0.1:5000/download/j1/out.mp4";
                        "download_path" := JStr "/download/j1/out.mp4" ]})) |}.

(** The events of the input controls (the upload area, the command box and
    its preset buttons, the output filename field), as opposed to those of
    the process action. *)
Definition is_input_event (e : Event) : bool :=
  match e with
  | ClickProcess | RequestSettled _ => false
  | DropFiles _ | SelectFiles _ | ClearFile | EditCommand _ | PickPreset _
  | EditOutputFilename _ => true
  end.

(** The three input cells of [App]. *)
Definition inputs (s : AppState) : option File * string * string :=
  (file s, command s, outputFilename s).

(* ===================================================================== *)
(** * Part II.  Lemmas and theorems                                       *)
(* ===================================================================== *)

Lemma append_cons (a : ascii) (p r : string) :
  String a p +:+ r = String a (p +:+ r).
Proof. reflexivity. Qed.

Lemma prefix_spec (p s : string) :
  String.prefix p s = true ↔ ∃ r, s = p +:+ r.
Proof.
  revert p. induction s as [|b s IH]; intros [|a p]; simpl.
  - split; [intros _; by exists "" | done].
  - split; [done | by intros [r ?]].
  - split; [intros _; by exists (String b s) | done].
  - destruct (ascii_dec a b) as [->|Hne].
    + rewrite IH. split; intros [r Hr]; exists r.
      * by rewrite append_cons, <- Hr.
      * rewrite append_cons in Hr. congruence.
    + split; [done | intros [r Hr]; rewrite append_cons in Hr; congruence].
Qed.

(** ** Occurrences of a substring *)

Lemma occurs_at_0 pat s : occurs_at pat s 0 ↔ String.prefix pat s = true.
Proof.
  rewrite prefix_spec. split.
  - intros ([|c b] & a & -> & Hl); [by exists a | done].
  - intros [r ->]. by exists "", r.
Qed.

Lemma occurs_at_S pat c s i : occurs_at pat (String c s) (S i) ↔ occurs_at pat s i.
Proof.
  split.
  - intros ([|c' b] & a & Heq & Hl); [done|].
    rewrite append_cons in Heq. simpl in Hl. exists b, a. split; congruence.
  - intros (b & a & -> & Hl). exists (String c b), a. simpl. by rewrite Hl.
Qed.

Lemma occurs_at_empty pat i : occurs_at pat "" (S i) → False.
Proof. by intros ([|c b] & a & Heq & Hl). Qed.

Lemma elem_of_here (b : bool) (i : nat) :
  i ∈ (if b then [0] else []) ↔ i = 0 ∧ b = true.
Proof.
  destruct b; [rewrite list_elem_of_singleton | rewrite elem_of_nil]; naive_solver.
Qed.

Lemma NoDup_here (b : bool) : NoDup (if b then [0] else []).
Proof. destruct b; [apply NoDup_singleton | constructor]. Qed.

Lemma positions_nil pat :
  positions pat "" = if String.prefix pat "" then [0] else [].
Proof. unfold positions. by rewrite app_nil_r. Qed.

Lemma positions_cons pat c s :
  positions pat (String c s) =
  (if String.prefix pat (String c s) then [0] else []) ++ (S <$> positions pat s).
Proof. reflexivity. Qed.

Lemma positions_spec pat s i : i ∈ positions pat s ↔ occurs_at pat s i.
Proof.
  revert i. induction s as [|c s IH]; intros i.
  - rewrite positions_nil, elem_of_here. destruct i as [|i].
    + rewrite occurs_at_0. naive_solver.
    + split; [naive_solver | by intros ?%occurs_at_empty].
  - rewrite positions_cons, elem_of_app, elem_of_here, list_elem_of_fmap.
    destruct i as [|i].
    + rewrite occurs_at_0. naive_solver.
    + rewrite occurs_at_S, <- IH. naive_solver.
Qed.

Lemma positions_NoDup pat s : NoDup (positions pat s).
Proof.
  induction s as [|c s IH].
  - rewrite positions_nil. apply NoDup_here.
  - rewrite positions_cons. apply NoDup_app. split_and!.
    + apply NoDup_here.
    + intros i [-> _]%elem_of_here (j & ? & _)%list_elem_of_fmap. done.
    + by apply (NoDup_fmap_2 S).
Qed.

Lemma occurrences_once pat s : occurrences pat s = 1 ↔ occurs_exactly_once pat s.
Proof.
  unfold occurrences, occurs_exactly_once. split.
  - intros Hlen. destruct (positions pat s) as [|i [|??]] eqn:E; simplify_eq/=.
    exists i. split.
    + apply positions_spec. rewrite E. set_solver.
    + intros j Hj%positions_spec. rewrite E in Hj. set_solver.
  - intros (i & Hi & Huniq).
    pose proof (positions_NoDup pat s) as Hnd.
    apply positions_spec in Hi.
    destruct (positions pat s) as [|a [|b l]] eqn:E; [set_solver | done |].
    exfalso. assert (a = i) as -> by (apply Huniq, positions_spec; rewrite E; set_solver).
    assert (b = i) as -> by (apply Huniq, positions_spec; rewrite E; set_solver).
    apply NoDup_cons in Hnd as [Hnd _]. set_solver.
Qed.

(** C3.  Each of the seven preset commands of [CommandInput] has [ffmpeg] as
    its first word and contains [{input}] exactly once and [{output}]
    exactly once. *)
Theorem presets_well_formed :
  length commonCommands = 7
  ∧ Forall (λ p, well_formed_template (preset_command p)) commonCommands.
Proof.
  split; [done|].
  repeat apply Forall_cons_2; [..|apply Forall_nil_2];
    unfold well_formed_template; rewrite <- !occurrences_once; by vm_compute.
Qed.

(** ** Template validation *)

Section TemplateFacts.
Import Template.


Lemma begins_with_token_iff raw :
  begins_with_token raw ↔ startsWith (trim raw) required_token = true.
Proof. unfold begins_with_token, startsWith. by rewrite prefix_spec. Qed.

(** [validate] accepts exactly the strings with the three properties. *)
Lemma validate_accepts_iff raw :
  validate raw = inr raw ↔
  begins_with_token raw ∧ occurs_exactly_once "{input}" raw
  ∧ occurs_exactly_once "{output}" raw.
Proof.
  rewrite begins_with_token_iff, <- !occurrences_once. unfold validate.
  destruct (startsWith (trim raw) required_token); simpl; [|naive_solver].
  repeat case_bool_decide; simpl; naive_solver.
Qed.

Lemma validate_cases raw : validate raw = inr raw ∨ validate raw = inl TemplateError.
Proof. unfold validate. destruct (_ && _); auto. Qed.

(** C1.  A raw command string that, after trimming, does not begin with the
    required token, or in which [{input}] does not occur exactly once, or in
    which [{output}] does not occur exactly once, fails validation with
    [TemplateError], and the [process] operation then spawns no external
    process, whatever the tokenisation and the executor are. *)
Theorem validate_rejects_malformed (raw : string) :
  ¬ begins_with_token raw
  ∨ ¬ occurs_exactly_once "{input}" raw
  ∨ ¬ occurs_exactly_once "{output}" raw →
  validate raw = inl TemplateError
  ∧ ∀ bind run_process input_path output_path,
      process bind run_process raw input_path output_path
      = (Failure TemplateError, []).
Proof.
  intros Hbad.
  assert (validate raw = inl TemplateError) as Hv.
  { destruct (validate_cases raw) as [Hok%validate_accepts_iff|]; [|done].
    naive_solver. }
  split; [done|]. intros. unfold process. by rewrite Hv.
Qed.

(** The three ways of being malformed, on the scenarios of the
    specification: a wrong leading token, [{input}] twice, no [{output}]. *)
Lemma validate_rejects_malformed_witness :
  (validate "cp {input} {output}" = inl TemplateError
   ∧ ∀ bind run_process input_path output_path,
       process bind run_process "cp {input} {output}" input_path output_path
       = (Failure TemplateError, []))
  ∧ validate "ffmpeg -i {input} -i {input} {output}" = inl TemplateError
  ∧ validate "  ffmpeg -i {input} out.mp4" = inl TemplateError.
Proof.
  split; [|split].
  - apply (validate_rejects_malformed "cp {input} {output}").
    left. rewrite begins_with_token_iff. vm_compute. discriminate.
  - refine (proj1 (validate_rejects_malformed "ffmpeg -i {input} -i {input} {output}" _)).
    right; left. rewrite <- occurrences_once. vm_compute. discriminate.
  - refine (proj1 (validate_rejects_malformed "  ffmpeg -i {input} out.mp4" _)).
    right; right. rewrite <- occurrences_once. vm_compute. discriminate.
Defined.

(** The service accepts every preset of the front end. *)
Lemma presets_validate :
  Forall (λ p, validate (preset_command p) = inr (preset_command p)) commonCommands.
Proof. repeat apply Forall_cons_2; [..|apply Forall_nil_2]; by vm_compute. Qed.

End TemplateFacts.

(** ** The execution gate *)

Section GateFacts.
Import Gate.

Lemma exclusive_idle : exclusive idle.
Proof.
  split; [intros i j [H|[H|H]] | intros _ i [H|[H|H]]];
    simpl in H; by rewrite lookup_empty in H.
Qed.

Lemma inside_insert b i ph js (st : State) j :
  inside (mkState b (<[i := ph]> (phases st)) js) j ↔
  (i = j ∧ (ph = Holding ∨ ph = Running ∨ ph = Exited)) ∨ (i ≠ j ∧ inside st j).
Proof.
  unfold inside; simpl. destruct (decide (i = j)) as [->|Hne].
  - rewrite lookup_insert_eq. naive_solver.
  - rewrite lookup_insert_ne by done. naive_solver.
Qed.

Lemma exclusive_step st a st' :
  exclusive st → step serial st a = Some st' → exclusive st'.
Proof.
  intros [Huniq Hfree] Hstep.
  destruct a as [i job|i|i|i|i]; simpl in Hstep;
    destruct (phases st !! i) as [[]|] eqn:Hi; simplify_eq;
    try destruct (locked st) eqn:Hl; simplify_eq;
    unfold set_locked, set_phase; simpl;
    try (assert (inside st i) by (unfold inside; auto));
    try specialize (Hfree eq_refl);
    (split; [intros j k | simpl; intros ? j]; rewrite !inside_insert; naive_solver).
Qed.

Lemma exclusive_exec schedule st st' :
  exclusive st → exec serial st schedule = Some st' → exclusive st'.
Proof.
  revert st. induction schedule as [|a rest IH]; intros st Hinv Hexec; simpl in Hexec.
  - by simplify_eq.
  - destruct (step serial st a) as [st1|] eqn:Hstep; simplify_eq/=.
    eauto using exclusive_step.
Qed.

Lemma exclusive_trace schedule st states :
  exclusive st → trace serial st schedule = Some states → Forall exclusive states.
Proof.
  revert st states.
  induction schedule as [|a rest IH]; intros st states Hinv Htrace; simpl in Htrace.
  - simplify_eq. by apply Forall_singleton.
  - destruct (step serial st a) as [st1|] eqn:Hstep; simplify_eq/=.
    destruct (trace serial st1 rest) as [states1|] eqn:Hrest; simplify_eq/=.
    apply Forall_cons. split; [done|]. eauto using exclusive_step.
Qed.

Lemma exclusive_no_overlap st : exclusive st → ¬ overlap st.
Proof.
  intros [Huniq _] (i & j & Hne & Hi & Hj). apply Hne, Huniq; unfold inside; auto.
Qed.

Lemma overlap_across_jobs_overlap st : overlap_across_jobs st → overlap st.
Proof.
  intros (i & j & a & b & Ha & Hb & Hne & Hi & Hj). exists i, j.
  split; [|done]. intros ->. congruence.
Qed.

(** C2.  In serial mode no schedule of [process] requests reaches a state
    in which two requests have their external process running, be they for
    the same job or for different jobs, and none passes through such a
    state: execution windows never overlap.  In unrestricted mode there is
    a schedule that makes the windows of two requests for different jobs
    overlap. *)
Theorem serial_gate_excludes_overlap :
  (∀ schedule st, exec serial idle schedule = Some st →
                  ¬ overlap st ∧ ¬ overlap_across_jobs st)
  ∧ (∀ schedule states, trace serial idle schedule = Some states →
                        Forall (λ st, ¬ overlap st ∧ ¬ overlap_across_jobs st) states)
  ∧ (∃ schedule st, exec unrestricted idle schedule = Some st
                    ∧ overlap st ∧ overlap_across_jobs st).
Proof.
  assert (∀ st, exclusive st → ¬ overlap st ∧ ¬ overlap_across_jobs st) as Huse.
  { intros st Hno%exclusive_no_overlap.
    split; [done|]. by intros ?%overlap_across_jobs_overlap. }
  split_and!.
  - intros schedule st Hexec.
    eapply Huse, exclusive_exec; [apply exclusive_idle | done].
  - intros schedule states Htrace.
    eapply Forall_impl; [|exact Huse].
    eapply exclusive_trace; [apply exclusive_idle | done].
  - exists two_at_once. eexists. split; [reflexivity|]. split.
    + exists 1, 2. split; [done|]. by split; vm_compute.
    + exists 1, 2, "job-a", "job-b". split_and!; by vm_compute.
Qed.

(** Serial mode at work: the second [acquire] is blocked while the first
    request holds the gate, and the two requests are served one by one. *)
Lemma serial_gate_excludes_overlap_witness :
  exec serial idle two_at_once = None
  ∧ ∃ st, exec serial idle one_by_one = Some st
          ∧ ¬ overlap st ∧ ¬ overlap_across_jobs st.
Proof.
  split; [by vm_compute|].
  eexists. split; [by vm_compute|].
  apply (proj1 serial_gate_excludes_overlap one_by_one). by vm_compute.
Defined.

End GateFacts.


(** ** The process action *)

Lemma nonempty_true (s : string) : nonempty s = true ↔ s ≠ "".
Proof. destruct s; naive_solver. Qed.

Lemma canProcess_true s :
  canProcess s = true ↔
  is_Some (file s) ∧ command s ≠ "" ∧ outputFilename s ≠ "".
Proof.
  unfold canProcess. rewrite !andb_true_iff, bool_decide_eq_true, !nonempty_true.
  naive_solver.
Qed.

(** The guard of [handleProcess] and the [disabled] attribute agree. *)
Lemma handleProcess_awaits s :
  canProcess s = true →
  ∃ f, file s = Some f ∧
       handleProcess s =
       Awaiting (setResult (mkResult (Some info) (JStr "正在上传文件...") JUndefined)
                   (setIsProcessing true s))
                (upload_request f (command s) (outputFilename s)).
Proof.
  intros ([f Hf] & Hc%nonempty_true & Ho%nonempty_true)%canProcess_true.
  exists f. split; [done|]. unfold handleProcess. by rewrite Hf, Hc, Ho.
Qed.





Lemma run_effects_output_filename s :
  is_Some (file s) → outputFilename (run_effects s) ≠ "".
Proof.
  intros [f Hf]. unfold run_effects, outputFilename_effect. rewrite Hf.
  destruct (nonempty (outputFilename s)) eqn:Ho; simpl.
  - by apply nonempty_true.
  - destruct (strip_extension (file_name f)); discriminate.
Qed.

Lemma run_effects_file s : file (run_effects s) = file s.
Proof. unfold run_effects. by destruct (outputFilename_effect _ _). Qed.

Lemma run_effects_isProcessing s : isProcessing (run_effects s) = isProcessing s.
Proof. unfold run_effects. by destruct (outputFilename_effect _ _). Qed.

Section Page.
Context {E : Engine}.

Lemma run_snoc events e : run (events ++ [e]) = step (run events) e.
Proof. unfold run. by rewrite foldl_app. Qed.

(** A property of [mounted] that every [step] preserves holds after every
    run. *)
Lemma run_ind (P : Page → Prop) :
  P mounted → (∀ p e, P p → P (step p e)) → ∀ events, P (run events).
Proof.
  intros H0 Hstep events. induction events as [|e events IH] using rev_ind.
  - exact H0.
  - rewrite run_snoc. by apply Hstep.
Qed.

(** After every step the effect has run: while a file is held the output
    filename is not empty. *)
Lemma step_output_filename p e :
  is_Some (file (app (step p e))) → outputFilename (app (step p e)) ≠ "".
Proof.
  unfold step; simpl. rewrite run_effects_file. apply run_effects_output_filename.
Qed.



End Page.




(** ** The processing flag *)

Section Flag.
Context {E : Engine}.

Lemma flag_tracks_mounted : flag_tracks mounted.
Proof. by left. Qed.

Lemma flag_tracks_step p e : flag_tracks p → flag_tracks (step p e).
Proof.
  intros Hinv. unfold step.
  cut (flag_tracks (handle p e)).
  { unfold flag_tracks; simpl. by rewrite run_effects_isProcessing. }
  destruct e; simpl; try done.
  - by destruct (file (app p)), (handleDrop files).
  - by destruct (file (app p)), (handleFileSelect files).
  - by destruct (file (app p)).
  - by destruct (commonCommands !! index).
  - destruct (process_disabled (app p)) eqn:Hdis; [done|].
    apply orb_false_iff in Hdis as [Hcan%negb_false_iff Hidle].
    destruct (handleProcess_awaits _ Hcan) as (f & Hf & ->).
    destruct Hinv as [[-> _]|(? & _ & ?)]; [|congruence].
    right. by eexists.
  - destruct Hinv as [[Hp ?]|(request & Hp & ?)]; rewrite Hp.
    + left. by rewrite Hp.
    + by left.
Qed.

Lemma flag_tracks_run events : flag_tracks (run events).
Proof. apply run_ind; auto using flag_tracks_mounted, flag_tracks_step. Qed.



End Flag.



(** ** The held file *)

Lemma handleDrop_video files f :
  handleDrop files = OnFileChange (Some f) → is_video f = true.
Proof.
  destruct files as [|g rest]; simpl; [done|].
  destruct (is_video g) eqn:Hg; naive_solver.
Qed.

Lemma handleFileSelect_video files f :
  handleFileSelect files = OnFileChange (Some f) → is_video f = true.
Proof.
  destruct files as [[|g rest]|]; simpl; [done| |done].
  destruct (is_video g) eqn:Hg; naive_solver.
Qed.

Lemma holds_video_step {E : Engine} p e :
  holds_video (app p) → holds_video (app (step p e)).
Proof.
  intros Hinv f. unfold step; simpl. rewrite run_effects_file.
  destruct e; simpl; try (by apply Hinv).
  - destruct (file (app p)) eqn:Hp; [by apply Hinv|].
    destruct (handleDrop files) as [[g|]| |] eqn:Hd; simpl; rewrite ?Hp; try done.
    intros [= ->]. by apply (handleDrop_video files).
  - destruct (file (app p)) eqn:Hp; [by apply Hinv|].
    destruct (handleFileSelect files) as [[g|]| |] eqn:Hd; simpl; rewrite ?Hp; try done.
    intros [= ->]. by apply (handleFileSelect_video files).
  - destruct (file (app p)) eqn:Hp; simpl; [done | by rewrite Hp].
  - destruct (commonCommands !! index); simpl; by apply Hinv.
  - destruct (process_disabled (app p)); [by apply Hinv|].
    unfold handleProcess. destruct (file (app p)) eqn:Hp; simpl; [|by rewrite Hp].
    destruct (_ || _); simpl; rewrite Hp; intros [= <-]; by apply Hinv.
  - destruct (in_flight p); simpl; by apply Hinv.
Qed.

(** C9.  A dropped or selected file reaches the file state only if its MIME
    type begins with [video/]; when the type of the first file does not, the
    stored file is left as it is.  Hence the file the page holds is always
    [null] or a video. *)
Theorem held_file_is_video :
  (∀ files f, handleDrop files = OnFileChange (Some f) →
              startsWith (file_type f) "video/" = true)
  ∧ (∀ files f, handleFileSelect files = OnFileChange (Some f) →
                startsWith (file_type f) "video/" = true)
  ∧ (∀ f rest s, startsWith (file_type f) "video/" = false →
                 apply_upload (handleDrop (f :: rest)) s = s
                 ∧ apply_upload (handleFileSelect (Some (f :: rest))) s = s)
  ∧ (∀ (E : Engine) events,
       match file (app (run events)) with
       | Some f => startsWith (file_type f) "video/" = true
       | None => True
       end).
Proof.
  split_and!.
  - apply handleDrop_video.
  - apply handleFileSelect_video.
  - intros f rest s Hf. unfold handleDrop, handleFileSelect, is_video. by rewrite Hf.
  - intros E events.
    assert (holds_video (app (run events))) as Hinv.
    { apply (run_ind (λ p, holds_video (app p))); [done | apply holds_video_step]. }
    destruct (file (app (run events))) as [f|] eqn:Hf; [by apply Hinv | done].
Qed.

Lemma held_file_is_video_witness :
  file (app (run (E := ecma) [DropFiles [notes; clip]])) = None
  ∧ file (app (run (E := ecma) [DropFiles [clip; notes]])) = Some clip
  ∧ startsWith (file_type clip) "video/" = true.
Proof.
  split_and!; [by vm_compute .. |].
  apply (proj1 held_file_is_video [clip; notes] clip). reflexivity.
Defined.


(** ** The default output filename *)

Lemma all_extension_chars_app s t :
  all_extension_chars (s +:+ t) = all_extension_chars s && all_extension_chars t.
Proof.
  induction s as [|c s IH]; [done|].
  rewrite append_cons. simpl. by rewrite IH, andb_assoc.
Qed.

(** A string with a dot in it is not an extension. *)
Lemma all_extension_chars_dot s t : all_extension_chars (s +:+ "." +:+ t) = false.
Proof. rewrite all_extension_chars_app. apply andb_false_r. Qed.

Lemma extension_here_false c s t : extension_here (String c (s +:+ "." +:+ t)) = false.
Proof.
  unfold extension_here. rewrite all_extension_chars_dot. apply andb_false_r.
Qed.

Lemma strip_extension_cons c r :
  strip_extension (String c r) =
  if extension_here (String c r) then "" else String c (strip_extension r).
Proof. reflexivity. Qed.

(** The final extension is cut off. *)
Lemma strip_extension_cuts base ext :
  ext ≠ "" → all_extension_chars ext = true →
  strip_extension (base +:+ "." +:+ ext) = base.
Proof.
  intros Hne%nonempty_true Hall. induction base as [|c base IH].
  - change ("" +:+ "." +:+ ext) with (String "." ext).
    rewrite strip_extension_cons. unfold extension_here. by rewrite Hne, Hall.
  - rewrite append_cons, strip_extension_cons, extension_here_false. by rewrite IH.
Qed.

(** A name that has no final extension is left as it is. *)
Lemma strip_extension_keeps name :
  (¬ ∃ base ext, name = base +:+ "." +:+ ext ∧ ext ≠ ""
                 ∧ all_extension_chars ext = true) →
  strip_extension name = name.
Proof.
  induction name as [|c name IH]; intros Hno; [done|].
  rewrite strip_extension_cons. destruct (extension_here (String c name)) eqn:Hhere.
  - exfalso. apply Hno. unfold extension_here in Hhere.
    apply andb_true_iff in Hhere as [[->%bool_decide_eq_true Hne%nonempty_true]%andb_true_iff Hall].
    by exists "", name.
  - rewrite IH; [done|].
    intros (base & ext & -> & Hne & Hall). apply Hno.
    by exists (String c base), ext.
Qed.

Lemma outputFilename_effect_nonempty file o :
  o ≠ "" → outputFilename_effect file o = None.
Proof.
  intros Ho%nonempty_true. unfold outputFilename_effect. rewrite Ho. by destruct file.
Qed.

(** C10.  When a file is selected while the output filename is empty, the
    output filename becomes the name of the file without its final extension
    (a final dot followed by one or more characters other than [.] and [/];
    a name without one is kept whole) followed by [_processed.mp4].  A
    non-empty output filename is never overwritten by this default: only the
    user's own edit of the field changes it. *)
Theorem default_output_filename :
  (∀ f, outputFilename_effect (Some f) ""
        = Some (strip_extension (file_name f) +:+ "_processed.mp4"))
  ∧ (∀ base ext, ext ≠ "" → all_extension_chars ext = true →
                 strip_extension (base +:+ "." +:+ ext) = base)
  ∧ (∀ name, (¬ ∃ base ext, name = base +:+ "." +:+ ext ∧ ext ≠ ""
                            ∧ all_extension_chars ext = true) →
             strip_extension name = name)
  ∧ (∀ (E : Engine) p f rest,
       file (app p) = None → outputFilename (app p) = "" →
       startsWith (file_type f) "video/" = true →
       file (app (step p (SelectFiles (Some (f :: rest))))) = Some f
       ∧ outputFilename (app (step p (SelectFiles (Some (f :: rest)))))
         = strip_extension (file_name f) +:+ "_processed.mp4")
  ∧ (∀ file o, o ≠ "" → outputFilename_effect file o = None)
  ∧ (∀ (E : Engine) p e,
       outputFilename (app p) ≠ "" →
       (∀ o, e ≠ EditOutputFilename o) →
       outputFilename (app (step p e)) = outputFilename (app p)).
Proof.
  split_and!.
  - done.
  - apply strip_extension_cuts.
  - apply strip_extension_keeps.
  - intros E p f rest Hfile Ho Hvideo. unfold step, handle. rewrite Hfile.
    unfold handleFileSelect, is_video. rewrite Hvideo. simpl.
    unfold run_effects. simpl. by rewrite Ho.
  - apply outputFilename_effect_nonempty.
  - intros E p e Ho Hedit.
    assert (∀ s, outputFilename s = outputFilename (app p) →
                 outputFilename (run_effects s) = outputFilename (app p)) as Heff.
    { intros s Hs. unfold run_effects.
      rewrite outputFilename_effect_nonempty; [done | by rewrite Hs]. }
    unfold step; simpl. apply Heff. destruct e; simpl; try done.
    + by destruct (file (app p)), (handleDrop files).
    + by destruct (file (app p)), (handleFileSelect files).
    + by destruct (file (app p)).
    + by destruct (commonCommands !! index).
    + by destruct (Hedit o).
    + destruct (process_disabled (app p)); [done|].
      unfold handleProcess. destruct (file (app p)); [|done]. by destruct (_ || _).
    + by destruct (in_flight p).
Qed.

Lemma default_output_filename_witness :
  strip_extension "clip.mp4" = "clip"
  ∧ strip_extension "archive.tar.gz" = "archive.tar"
  ∧ strip_extension "README" = "README"
  ∧ outputFilename (app (run (E := ecma) [SelectFiles (Some [clip])]))
    = "clip_processed.mp4"
  ∧ outputFilename (app (run (E := ecma)
      [EditOutputFilename "final.mkv"; SelectFiles (Some [clip])])) = "final.mkv".
Proof.
  split_and!.
  - apply (proj1 (proj2 default_output_filename) "clip" "mp4"); [discriminate | reflexivity].
  - apply (proj1 (proj2 default_output_filename) "archive.tar" "gz");
      [discriminate | reflexivity].
  - by vm_compute.
  - refine (proj2 (proj1 (proj2 (proj2 (proj2 default_output_filename))) ecma
              mounted clip [] eq_refl eq_refl eq_refl)).
  - refine (proj2 (proj2 (proj2 (proj2 (proj2 default_output_filename)))) ecma
              (run (E := ecma) [EditOutputFilename "final.mkv"])
              (SelectFiles (Some [clip])) _ _); [discriminate | discriminate].
Defined.


(** ** What the process action reports *)

(** The reference engine on a few durations and payload values. *)
Example reference_renderings :
  Number_toFixed_ecma (1234 / 1000) 2 = "1.23"
  ∧ Number_toFixed_ecma (250 / 1000) 2 = "0.25"
  ∧ Number_toFixed_ecma (1005 / 1000) 2 = "1.00"
  ∧ Number_toFixed_ecma (125 / 1000) 2 = "0.13"
  ∧ Number_toFixed_ecma (59999 / 1000) 2 = "60.00"
  ∧ Number_toFixed_ecma 0 2 = "0.00"
  ∧ Number_toFixed_ecma 1e21 2 = "1e+21"
  ∧ Number_toString_ecma 1234 = "1234"
  ∧ Number_toString_ecma 0.25 = "0.25"
  ∧ Number_toString_ecma (1 / 3) = "0.3333333333333333"
  ∧ Number_toString_ecma 1e21 = "1e+21"
  ∧ ToString (E := ecma) (JArr [JNum 1; JNull; JStr "a"; JArr [JBool true]]) = Some "1,,a,true"
  ∧ ToString (E := ecma) (JObj {[ "file" := JStr "required" ]}) = Some "[object Object]"
  ∧ ToString (E := ecma) (JObj {[ "toString" := JNum 1 ]}) = None.
Proof. split_and!; by vm_compute. Qed.

Lemma get_is_Some data k v k' : get data k = Some v → is_Some (get data k').
Proof. destruct data; simpl; naive_solver. Qed.


Lemma append_nonempty_r (s t : string) : t ≠ "" → s +:+ t ≠ "".
Proof. destruct s; [done | by intros _]. Qed.

Lemma truthy_append (s t : string) : t ≠ "" → truthy (JStr (s +:+ t)) = true.
Proof. intros Ht. by apply nonempty_true, append_nonempty_r. Qed.

Section Reports.
Context {E : Engine}.

(** The message of the success branch. *)
Lemma success_result_inv data res :
  success_result data = Some res →
  ∃ url d,
    reference_url data = Some url ∧ get data "duration_ms" = Some d
    ∧ res = mkResult (Some success)
              (JStr ("视频处理完成！" +:+
                     match d with JNum ms => elapsed_text ms | _ => "" end))
              url.
Proof.
  unfold success_result. intros Hres.
  destruct (reference_url data) as [url|]; simplify_eq/=.
  destruct (get data "duration_ms") as [d|]; simplify_eq/=.
  exists url, d. split_and!; [done | done |].
  by destruct d.
Qed.


(** The message of the failure branch. *)
Lemma failure_result_inv r data res :
  failure_result r data = Some res →
  ∃ m d e,
    get data "message" = Some m ∧ get data "duration_ms" = Some d
    ∧ get data "error" = Some e
    ∧ status res = Some error ∧ downloadUrl res = JUndefined
    ∧ match d with
      | JNum ms =>
          if truthy m
          then ∃ s, ToString m = Some s
                    ∧ message res = JStr (s +:+ "，" +:+ elapsed_text ms)
          else message res = if truthy e then e else JStr (fallback_message r)
      | _ => message res = if truthy m then m
                           else if truthy e then e else JStr (fallback_message r)
      end.
Proof.
  unfold failure_result. intros Hres.
  destruct (get data "message") as [m|] eqn:Hm; simplify_eq/=.
  destruct (get data "duration_ms") as [d|] eqn:Hd; simplify_eq/=.
  destruct (get_is_Some data "message" m "error" Hm) as [e He]. rewrite He in Hres.
  exists m, d, e. do 3 (split; [done|]).
  destruct d; simpl in Hres |- *;
    try (destruct (truthy m) eqn:Htm, (truthy e) eqn:Hte; by simplify_eq/=).
  destruct (truthy m) eqn:Htm; simpl in Hres.
  - destruct (ToString m) as [s|] eqn:Hs; simpl in Hres; [|done].
    assert (nonempty (s +:+ "，" +:+ elapsed_text x) = true) as Hne
      by (by apply nonempty_true, append_nonempty_r).
    rewrite Hne in Hres. simplify_eq/=. eauto.
  - rewrite Htm in Hres. destruct (truthy e) eqn:Hte; by simplify_eq/=.
Qed.

Lemma failure_result_truthy r data res :
  failure_result r data = Some res → truthy (message res) = true.
Proof.
  intros (m & d & e & _ & _ & _ & _ & _ & Hmsg)%failure_result_inv.
  assert (truthy (JStr (fallback_message r)) = true) as Hfb by done.
  destruct d; try (rewrite Hmsg; by destruct (truthy m) eqn:?, (truthy e) eqn:?).
  destruct (truthy m) eqn:Hm.
  - destruct Hmsg as (s & _ & ->). by apply truthy_append.
  - rewrite Hmsg. by destruct (truthy e) eqn:?.
Qed.


End Reports.


Lemma carries_reference_true r data :
  carries_reference r data = Some true ↔
  ok r = true ∧ ∃ ref, download_reference data = Some ref ∧ truthy ref = true.
Proof.
  unfold carries_reference. destruct (ok r).
  - destruct (download_reference data) as [ref|]; simpl.
    + split.
      * intros [= Ht]. split; [done|]. by exists ref.
      * by intros (_ & ref' & [= <-] & ->).
    + split; [done|]. by intros (_ & ? & ? & _).
  - split; [done|]. by intros [? _].
Qed.

Section Settled.
Context {E : Engine}.

Lemma on_response_inv r res :
  on_response r = Some res →
  ∃ data, read_data r = Some data
    ∧ ((carries_reference r data = Some true ∧ success_result data = Some res)
       ∨ (carries_reference r data = Some false ∧ failure_result r data = Some res)).
Proof.
  unfold on_response. intros Hres.
  destruct (read_data r) as [data|]; simplify_eq/=.
  destruct (carries_reference r data) as [[]|] eqn:Hc; simplify_eq/=;
    exists data; (split; [done|]); [left | right]; done.
Qed.

Lemma settled_result_cases o :
  settled_result o = network_error
  ∨ ∃ r res, o = Resolved r ∧ on_response r = Some res ∧ settled_result o = res.
Proof.
  destruct o as [|r]; simpl; [by left|].
  destruct (on_response r) as [res|] eqn:Hres; simpl;
    [right; by exists r, res | by left].
Qed.


End Settled.





(** C5, amended.  On the success path the message is the completion text,
    followed by the elapsed time [(duration_ms / 1000).toFixed(2)] in
    seconds exactly when [duration_ms] is a number.  On the failure path the
    elapsed time is appended only when [duration_ms] is a number and the
    payload also has a truthy [message] (it is appended to that message);
    when [duration_ms] is a number but there is no message, the text is the
    [error] field or the HTTP fallback, without the time.  When [duration_ms]
    is absent or not a number, no elapsed time is added on either path. *)
Theorem elapsed_time_in_message {E : Engine} (r : Response) (data d m e : JSValue) :
  read_data r = Some data →
  get data "duration_ms" = Some d →
  get data "message" = Some m →
  get data "error" = Some e →
  let res := settled_result (Resolved r) in
  (status res = Some success →
     message res = JStr ("视频处理完成！" +:+
                         match d with JNum ms => elapsed_text ms | _ => "" end))
  ∧ (carries_reference r data = Some false →
       (∀ ms s, d = JNum ms → truthy m = true → ToString m = Some s →
                status res = Some error
                ∧ message res = JStr (s +:+ "，" +:+ elapsed_text ms))
       ∧ (∀ ms, d = JNum ms → truthy m = false →
                status res = Some error
                ∧ message res = if truthy e then e else JStr (fallback_message r))
       ∧ (is_number d = false →
                status res = Some error
                ∧ message res = if truthy m then m
                                else if truthy e then e
                                     else JStr (fallback_message r))).
Proof.
  intros Hdata Hd Hm He res. split.
  - intros Hs.
    destruct (settled_result_cases (Resolved r)) as [Hnet|(r' & res' & [= <-] & Hres & Heq)].
    { subst res. by rewrite Hnet in Hs. }
    fold res in Heq. subst res'.
    apply on_response_inv in Hres as (data' & Hdata' & [[_ Hr]|[_ Hr]]).
    + assert (data' = data) as -> by congruence.
      apply success_result_inv in Hr as (url & d' & _ & Hd' & ->).
      by assert (d' = d) as -> by congruence.
    + apply failure_result_inv in Hr as (_ & _ & _ & _ & _ & _ & Hst & _). congruence.
  - intros Hc.
    assert (∀ res', failure_result r data = Some res' → res = res') as Hres.
    { intros res' Hres'. subst res. simpl. unfold on_response.
      by rewrite Hdata; simpl; rewrite Hc; simpl; rewrite Hres'. }
    assert (∀ res', failure_result r data = Some res' →
      status res' = Some error ∧
      match d with
      | JNum ms =>
          if truthy m
          then ∃ s, ToString m = Some s
                    ∧ message res' = JStr (s +:+ "，" +:+ elapsed_text ms)
          else message res' = if truthy e then e else JStr (fallback_message r)
      | _ => message res' = if truthy m then m
                            else if truthy e then e else JStr (fallback_message r)
      end) as Hinv.
    { intros res' (m' & d' & e' & Hm' & Hd' & He' & Hst & _ & Hmsg)%failure_result_inv.
      by assert (m' = m ∧ d' = d ∧ e' = e) as (-> & -> & ->)
        by (split_and!; congruence). }
    assert (∀ first, ∃ res',
      (msg ← (if truthy first then Some first
              else e' ← get data "error";
                   if truthy e' then Some e' else Some (JStr (fallback_message r)));
       Some {| status := Some error; message := msg; downloadUrl := JUndefined |})
      = Some res') as Htotal.
    { intros first. rewrite He. simpl. destruct (truthy first), (truthy e); by eexists. }
    split_and!.
    + intros ms s -> Htm Hs.
      destruct (Htotal (JStr (s +:+ "，" +:+ elapsed_text ms))) as [res' Hres'].
      assert (failure_result r data = Some res') as Hf.
      { unfold failure_result. rewrite Hm, Hd. simpl. rewrite Htm, Hs. exact Hres'. }
      rewrite (Hres _ Hf). apply Hinv in Hf as [Hst Hmsg]. rewrite Htm in Hmsg.
      destruct Hmsg as (s' & Hs' & ->). split; [done|]. congruence.
    + intros ms -> Htm.
      destruct (Htotal m) as [res' Hres'].
      assert (failure_result r data = Some res') as Hf.
      { unfold failure_result. rewrite Hm, Hd. simpl. rewrite Htm. exact Hres'. }
      rewrite (Hres _ Hf). apply Hinv in Hf as [Hst Hmsg]. by rewrite Htm in Hmsg.
    + intros Hnum.
      destruct (Htotal m) as [res' Hres'].
      assert (failure_result r data = Some res') as Hf.
      { unfold failure_result. rewrite Hm, Hd. simpl. by destruct d. }
      rewrite (Hres _ Hf). apply Hinv in Hf as [Hst Hmsg]. by destruct d.
Qed.

(** C5 as stated fails on the failure path: the response carries a numeric
    [duration_ms] and the message shown has no elapsed time in it. *)
Lemma elapsed_time_in_message_counterexample :
  (data ← read_data failed_run; get data "duration_ms") = Some (JNum 1234)
  ∧ status (settled_result (E := ecma) (Resolved failed_run)) = Some error
  ∧ message (settled_result (E := ecma) (Resolved failed_run))
    = JStr "ffmpeg exited with code 1"
  ∧ elapsed_text (E := ecma) 1234 = "耗时 1.23s"
  ∧ includes "ffmpeg exited with code 1" "耗时" = false.
Proof. split_and!; by vm_compute. Qed.

Lemma elapsed_time_in_message_witness :
  message (settled_result (E := ecma) (Resolved processed))
  = JStr "视频处理完成！耗时 1.23s"
  ∧ message (settled_result (E := ecma) (Resolved failed_run_message))
    = JStr "ffmpeg failed，耗时 0.25s"
  ∧ message (settled_result (E := ecma) (Resolved failed_run))
    = JStr "ffmpeg exited with code 1".
Proof.
  split_and!.
  - refine (proj1 (elapsed_time_in_message (E := ecma) processed _ (JNum 1234)
                     (JStr "ok") JUndefined _ _ _ _) _); by vm_compute.
  - refine (proj2 (proj1 (proj2 (elapsed_time_in_message (E := ecma) failed_run_message
                     _ (JNum 250) (JStr "ffmpeg failed") JUndefined _ _ _ _) _)
                     250%float "ffmpeg failed" eq_refl eq_refl eq_refl)); by vm_compute.
  - refine (proj2 (proj1 (proj2 (proj2 (elapsed_time_in_message (E := ecma) failed_run
                     _ (JNum 1234) JUndefined (JStr "ffmpeg exited with code 1")
                     _ _ _ _) _)) 1234%float eq_refl eq_refl)); by vm_compute.
Defined.


(** ** The result cell and what the page shows *)

Lemma run_effects_result s : result (run_effects s) = result s.
Proof. unfold run_effects. by destruct (outputFilename_effect _ _). Qed.


Section ResultCell.
Context {E : Engine}.

Lemma reference_url_truthy data ref url :
  download_reference data = Some ref → truthy ref = true →
  reference_url data = Some url → truthy url = true.
Proof.
  unfold download_reference, reference_url. intros Href Ht Hurl.
  destruct (get data "download_url") as [u|]; simplify_eq/=.
  destruct (truthy u) eqn:Hu; [by simplify_eq|].
  rewrite Href in Hurl. simpl in Hurl. rewrite Ht in Hurl.
  destruct (ToString ref); by simplify_eq/=.
Qed.

(** What one settled request stores: a success with a link, or an error
    without one; the message is never empty. *)
Lemma settled_result_shape o :
  truthy (message (settled_result o)) = true
  ∧ ((status (settled_result o) = Some success
      ∧ truthy (downloadUrl (settled_result o)) = true)
     ∨ (status (settled_result o) = Some error
        ∧ downloadUrl (settled_result o) = JUndefined)).
Proof.
  destruct (settled_result_cases o) as [->|(r & res & -> & Hres & ->)].
  { split; [done|]. by right. }
  apply on_response_inv in Hres as (data & Hdata & [[Hc Hr]|[_ Hr]]).
  - apply carries_reference_true in Hc as (_ & ref & Href & Ht).
    apply success_result_inv in Hr as (url & d & Hurl & _ & ->). simpl.
    split; [done|]. left. split; [done|]. by eapply reference_url_truthy.
  - split; [by eapply failure_result_truthy|]. right.
    by apply failure_result_inv in Hr as (_ & _ & _ & _ & _ & _ & ? & ? & _).
Qed.

Lemma result_tracks_step p e : result_tracks p → result_tracks (step p e).
Proof.
  intros Hinv. unfold step.
  cut (result_tracks (handle p e)).
  { unfold result_tracks; simpl.
    by rewrite run_effects_isProcessing, run_effects_result. }
  destruct e; simpl; try done.
  - by destruct (file (app p)), (handleDrop files).
  - by destruct (file (app p)), (handleFileSelect files).
  - by destruct (file (app p)).
  - by destruct (commonCommands !! index).
  - destruct (process_disabled (app p)) eqn:Hdis; [done|].
    apply orb_false_iff in Hdis as [Hcan%negb_false_iff Hidle].
    destruct (handleProcess_awaits _ Hcan) as (f & Hf & ->).
    destruct Hinv as [(-> & _ & _)|(? & _ & ? & _)]; [|congruence].
    right. by eexists.
  - destruct Hinv as [(Hp & ? & ?)|(request & Hp & ? & ?)]; rewrite Hp.
    + left. by rewrite Hp.
    + left. simpl. split_and!; [done..|]. right. by exists o.
Qed.

Lemma result_tracks_run events : result_tracks (run events).
Proof.
  apply run_ind; [|apply result_tracks_step].
  left. split_and!; [done..|]. by left.
Qed.

(** On the page the link and the success status go together. *)
Lemma download_iff_success events :
  truthy (downloadUrl (result (app (run events)))) = true
  ↔ status (result (app (run events))) = Some success.
Proof.
  destruct (result_tracks_run events) as [(_ & _ & [->| [o ->]])|(? & _ & _ & ->)];
    [done | | done].
  destruct (settled_result_shape o) as [_ [[-> ->]|[-> ->]]]; done.
Qed.

Lemma success_message_truthy events :
  status (result (app (run events))) = Some success →
  truthy (message (result (app (run events)))) = true.
Proof.
  destruct (result_tracks_run events) as [(_ & _ & [->| [o ->]])|(? & _ & _ & ->)];
    [done | | done].
  intros _. apply settled_result_shape.
Qed.

Lemma run_output_filename events :
  is_Some (file (app (run events))) → outputFilename (app (run events)) ≠ "".
Proof.
  apply (run_ind (λ p, is_Some (file (app p)) → outputFilename (app p) ≠ "")).
  - by intros [? ?].
  - intros p e _. apply step_output_filename.
Qed.

End ResultCell.

(** X1.  On every page the application reaches, the download button of
    [ProcessControl], the download button inside [ResultDisplay] and the
    download action are available together, and exactly when the result
    held is a success. *)
Theorem download_buttons_agree {E : Engine} (events : list Event) :
  let s := app (run events) in
  (download_shown (control_view s) = true ↔ status (result s) = Some success)
  ∧ ((∃ v, result_panel s = Some v ∧ panel_download v = true)
     ↔ status (result s) = Some success)
  ∧ (is_Some (handleDownload s) ↔ status (result s) = Some success)
  ∧ (∀ u target, handleDownload s = Some (u, target) →
                 u = downloadUrl (result s) ∧ target = "_blank").
Proof.
  intros s. pose proof (download_iff_success events) as Hiff. fold s in Hiff.
  pose proof (success_message_truthy events) as Hmsg. fold s in Hmsg.
  split_and!.
  - exact Hiff.
  - unfold result_panel, ResultDisplay. split.
    + intros (v & Hv & Hd).
      destruct (truthy (message (result s))); [|done]. simpl in Hv.
      rewrite andb_false_r in Hv. injection Hv as <-. simpl in Hd.
      by apply andb_true_iff in Hd as [_ ?%bool_decide_eq_true].
    + intros Hs. rewrite (Hmsg Hs). rewrite andb_false_r. eexists. split; [done|].
      simpl. rewrite (proj2 Hiff Hs). by rewrite Hs.
  - unfold handleDownload. rewrite <- Hiff.
    destruct (truthy (downloadUrl (result s))); split; try done;
      by intros [? ?].
  - unfold handleDownload. intros u target.
    destruct (truthy (downloadUrl (result s))); [|done]. by intros [= <- <-].
Qed.

(** X2.  While a request is in flight the page shows the button disabled
    and greyed, with the spinner and the label of processing, the progress
    bar, a blue notice that the file is being uploaded, and no download
    button in either place; the download action does nothing. *)
Theorem in_flight_view {E : Engine} (events : list Event) :
  in_flight (run events) ≠ [] →
  let s := app (run events) in
  control_view s =
    {| button_disabled := true;
       button_class := "bg-gray-300 text-gray-500 cursor-not-allowed";
       button_icon := Loader2;
       button_label := "处理中...";
       download_shown := false;
       progress_bar := true |}
  ∧ result_panel s =
      Some {| panel_class := "border rounded-lg p-4 bg-blue-50 border-blue-200 text-blue-800";
              panel_icon := (AlertCircle, "h-5 w-5 text-blue-500");
              panel_message := JStr "正在上传文件...";
              panel_download := false |}
  ∧ handleDownload s = None.
Proof.
  intros Hne s.
  destruct (result_tracks_run events) as [(? & _)|(? & _ & Hp & Hr)]; [done|].
  fold s in Hp, Hr. unfold control_view, result_panel, handleDownload, ProcessControl.
  rewrite Hp, Hr. simpl. by rewrite !orb_true_r.
Qed.

Lemma in_flight_view_witness :
  button_label (control_view (app uploading)) = "处理中..."
  ∧ progress_bar (control_view (app uploading)) = true
  ∧ handleDownload (app uploading) = None.
Proof.
  assert (in_flight (run (E := ecma) upload_clicked) ≠ []) as Hne
    by (vm_compute; discriminate).
  destruct (in_flight_view (E := ecma) upload_clicked Hne) as (Hc & _ & Hd).
  fold uploading in Hc, Hd. rewrite Hc. by split_and!.
Defined.



(** X4.  [getIcon] and [getBgColor] pick the same colour for every status,
    the missing status included: green for a success, red for an error,
    blue otherwise. *)
Theorem icon_and_background_agree (status : option Status) :
  snd (getIcon status) = "h-5 w-5 text-" +:+ colour_of status +:+ "-500"
  ∧ getBgColor status = "bg-" +:+ colour_of status +:+ "-50 border-"
                        +:+ colour_of status +:+ "-200 text-"
                        +:+ colour_of status +:+ "-800"
  ∧ (colour_of status = "green" ↔ status = Some success)
  ∧ (colour_of status = "red" ↔ status = Some error).
Proof. destruct status as [[]|]; split_and!; done. Qed.

(** ** Where the download link comes from *)

(** X5.  In a response that qualifies as a success, a truthy [download_url]
    is stored as the link exactly as it came, whatever [download_path]
    says; without one, a [download_path] that is a non-empty string is
    stored behind the prefix [/api]. *)
Theorem download_link_source {E : Engine} (r : Response) (data u : JSValue) :
  ok r = true → read_data r = Some data → get data "download_url" = Some u →
  (truthy u = true →
   status (settled_result (Resolved r)) = Some success
   ∧ downloadUrl (settled_result (Resolved r)) = u)
  ∧ (∀ p, truthy u = false → get data "download_path" = Some (JStr p) → p ≠ "" →
          status (settled_result (Resolved r)) = Some success
          ∧ downloadUrl (settled_result (Resolved r)) = JStr ("/api" +:+ p)).
Proof.
  intros Hok Hdata Hu.
  destruct (get_is_Some data "download_url" u "duration_ms" Hu) as [d Hd].
  assert (∀ ref url, download_reference data = Some ref → truthy ref = true →
                     reference_url data = Some url →
                     status (settled_result (Resolved r)) = Some success
                     ∧ downloadUrl (settled_result (Resolved r)) = url) as Hgen.
  { intros ref url Href Ht Hurl. simpl. unfold on_response, carries_reference.
    rewrite Hdata, Hok. simpl. rewrite Href. simpl. rewrite Ht.
    unfold success_result. rewrite Hurl, Hd. done. }
  split.
  - intros Ht. apply (Hgen u).
    + unfold download_reference. rewrite Hu. simpl. by rewrite Ht.
    + done.
    + unfold reference_url. rewrite Hu. simpl. by rewrite Ht.
  - intros p Hf Hp Hne%nonempty_true. apply (Hgen (JStr p)).
    + unfold download_reference. rewrite Hu. simpl. by rewrite Hf.
    + done.
    + unfold reference_url. rewrite Hu. simpl. rewrite Hf, Hp. simpl.
      by rewrite Hne.
Qed.

Lemma download_link_source_witness :
  downloadUrl (settled_result (E := ecma) (Resolved processed_with_url))
  = JStr "http://127.0.0.1:5000/download/j1/out.mp4"
  ∧ downloadUrl (settled_result (E := ecma) (Resolved processed))
    = JStr "/api/download/j1/out.mp4".
Proof.
  split.
  - refine (proj2 (proj1 (download_link_source (E := ecma) processed_with_url _
                            (JStr "http://127.0.0.1:5000/download/j1/out.mp4")
                            eq_refl eq_refl eq_refl) eq_refl)).
  - refine (proj2 (proj2 (download_link_source (E := ecma) processed _ JUndefined
                            eq_refl eq_refl eq_refl)
                     "/download/j1/out.mp4" eq_refl eq_refl _)).
    discriminate.
Defined.

(** X6.  A response whose body is not valid JSON: under a content type that
    does not mention [application/json] the body text itself is shown as the
    error (the HTTP fallback when the body is empty), whatever the status
    code, 200 included; under a JSON content type the page reports the
    network error instead. *)
Theorem unparsable_body_reported {E : Engine} (r : Response) (text : string) :
  response_body r = BodyRead text None →
  settled_result (Resolved r) =
    if includes (default "" (content_type r)) "application/json"
    then network_error
    else mkResult (Some error)
           (JStr (if nonempty text then text else fallback_message r))
           JUndefined.
Proof.
  intros Hbody. simpl. unfold on_response, read_data, response_json, response_text,
    parse_or_wrap. rewrite Hbody.
  destruct (includes _ _); [done|]. simpl.
  unfold carries_reference, download_reference. simpl.
  rewrite !lookup_singleton_ne by done. simpl.
  assert (Some false = (if ok r then Some false else Some false)) as <-
    by by destruct (ok r).
  simpl. unfold failure_result. simpl.
  rewrite lookup_singleton_eq, !lookup_singleton_ne by done. simpl.
  by destruct (nonempty text).
Qed.

Lemma unparsable_body_reported_witness :
  settled_result (E := ecma) (Resolved bad_gateway)
  = mkResult (Some error) (JStr "<html>502 Bad Gateway</html>") JUndefined
  ∧ settled_result (E := ecma) (Resolved truncated_json) = network_error.
Proof.
  split.
  - exact (unparsable_body_reported (E := ecma) bad_gateway _ eq_refl).
  - exact (unparsable_body_reported (E := ecma) truncated_json _ eq_refl).
Defined.

(** ** When the process button is enabled *)

Lemma run_effects_command s : command (run_effects s) = command s.
Proof. unfold run_effects. by destruct (outputFilename_effect _ _). Qed.


(** X8.  A video and a preset are all it takes: from a page with no file
    and nothing in flight, choosing a video (the first of the files chosen)
    and then clicking one of the preset buttons enables the process button,
    and a click on it puts exactly one request in flight, for that file,
    with the command of the preset and the output filename held then. *)
Theorem video_and_preset_suffice {E : Engine} (events : list Event)
    (f : File) (rest : list File) (i : nat) (preset : Preset) :
  file (app (run events)) = None → in_flight (run events) = [] →
  is_video f = true → commonCommands !! i = Some preset →
  let p := run (events ++ [SelectFiles (Some (f :: rest)); PickPreset i]) in
  button_disabled (control_view (app p)) = false
  ∧ file (app p) = Some f
  ∧ command (app p) = preset_command preset
  ∧ outputFilename (app p) ≠ ""
  ∧ in_flight (step p ClickProcess)
    = [upload_request f (preset_command preset) (outputFilename (app p))].
Proof.
  intros Hfile Hidle Hvideo Hpreset p.
  assert (p = step (step (run events) (SelectFiles (Some (f :: rest)))) (PickPreset i))
    as Hp.
  { unfold p.
    change (events ++ [SelectFiles (Some (f :: rest)); PickPreset i])
      with (events ++ [SelectFiles (Some (f :: rest))] ++ [PickPreset i]).
    by rewrite (assoc_L (++)), !run_snoc. }
  assert (file (app p) = Some f) as Hf.
  { rewrite Hp. unfold step; simpl. rewrite !run_effects_file, Hpreset. simpl.
    rewrite run_effects_file, Hfile. simpl. by rewrite Hvideo. }
  assert (command (app p) = preset_command preset) as Hc.
  { rewrite Hp. unfold step; simpl. by rewrite run_effects_command, Hpreset. }
  assert (in_flight p = []) as Hn.
  { rewrite Hp. unfold step; simpl. rewrite Hpreset. simpl. by rewrite Hfile. }
  assert (outputFilename (app p) ≠ "") as Ho.
  { apply run_output_filename. fold p. by rewrite Hf. }
  assert (isProcessing (app p) = false) as Hflag.
  { destruct (flag_tracks_run (events ++ [SelectFiles (Some (f :: rest)); PickPreset i]))
      as [[_ ?]|(? & Hin & _)]; [done|]. fold p in Hin. congruence. }
  assert (preset_command preset ≠ "") as Hne.
  { do 7 (destruct i as [|i]; [by injection Hpreset as <-|]). done. }
  assert (canProcess (app p) = true) as Hcan.
  { apply canProcess_true. rewrite Hf, Hc. by split_and!. }
  split_and!; [|done..|].
  - unfold control_view, ProcessControl. simpl. by rewrite Hcan, Hflag.
  - unfold step; simpl. unfold process_disabled. rewrite Hcan, Hflag. simpl.
    destruct (handleProcess_awaits _ Hcan) as (g & Hg & ->). simpl.
    rewrite Hn, Hc. simpl. congruence.
Qed.

Lemma video_and_preset_suffice_witness :
  in_flight (step (E := ecma)
               (run (E := ecma) ([] ++ [SelectFiles (Some [clip]); PickPreset 4]))
               ClickProcess)
  = [upload_request clip h264 "clip_processed.mp4"].
Proof.
  pose proof (video_and_preset_suffice (E := ecma) [] clip [] 4
                (mkPreset "压缩视频" h264) eq_refl eq_refl eq_refl eq_refl) as Hthm.
  cbv zeta in Hthm. destruct Hthm as (_ & _ & _ & _ & ->). by vm_compute.
Defined.

(** ** The shape of the default output filename *)

Lemma append_inj_l (s t u : string) : s +:+ t = s +:+ u → t = u.
Proof.
  induction s as [|c s IH]; [done|]. rewrite !append_cons. intros [= ?]. auto.
Qed.

(** X9.  Computing the base name only ever removes a suffix, and what it
    removes is nothing or one final extension (a dot, then one or more
    characters other than [.] and [/]): anything up to the last [/] is
    kept.  So the default output filename is never the name of the
    uploaded file itself. *)
Theorem strip_extension_decomposes (name : string) :
  (∃ rest, name = strip_extension name +:+ rest
           ∧ (rest = "" ∨ extension_here rest = true))
  ∧ strip_extension name +:+ "_processed.mp4" ≠ name.
Proof.
  assert (∃ rest, name = strip_extension name +:+ rest
                  ∧ (rest = "" ∨ extension_here rest = true)) as Hdec.
  { induction name as [|c name (rest & Heq & Hrest)]; [by exists ""; auto|].
    rewrite strip_extension_cons.
    destruct (extension_here (String c name)) eqn:Hhere.
    - exists (String c name). auto.
    - exists rest. rewrite append_cons. by rewrite <- Heq. }
  split; [done|].
  destruct Hdec as (rest & Heq & Hrest). intros Hsame.
  rewrite Heq in Hsame at 2. apply append_inj_l in Hsame as <-.
  by destruct Hrest.
Qed.

(** ** What each kind of event leaves alone *)

Section Frames.
Context {E : Engine}.



End Frames.

(** X10.  The process action never touches what the user entered: on every
    page the application reaches, neither a click on the process button nor
    the settling of a request changes the held file, the command or the
    output filename. *)
Theorem processing_keeps_inputs {E : Engine} (events : list Event) (e : Event) :
  is_input_event e = false →
  inputs (app (step (run events) e)) = inputs (app (run events)).
Proof.
  intros He. pose proof (run_output_filename events) as Hout.
  set (p := run events) in *.
  assert (∀ s, inputs s = inputs (app p) → inputs (run_effects s) = inputs (app p))
    as Heff.
  { intros s Hs. pose proof Hs as [= Hf Hc Ho].
    unfold run_effects, outputFilename_effect. rewrite Hf, Ho.
    destruct (file (app p)) as [f|] eqn:Hp; [|done].
    by rewrite (proj2 (nonempty_true _) (Hout ltac:(done))). }
  unfold step; simpl. apply Heff. destruct e; try done; simpl.
  - destruct (process_disabled (app p)); [done|].
    unfold handleProcess. destruct (file (app p)); [|done]. by destruct (_ || _).
  - by destruct (in_flight p).
Qed.

Lemma processing_keeps_inputs_witness :
  inputs (app (step (E := ecma) uploading (RequestSettled Rejected)))
  = (Some clip, h264, "clip_processed.mp4").
Proof.
  refine (eq_trans (processing_keeps_inputs (E := ecma) upload_clicked
                      (RequestSettled Rejected) eq_refl) _).
  by vm_compute.
Defined.

(** X11.  Dropping files and choosing them through the file dialog are the
    same action: both look at the first file only, and a dialog that
    reports no file list does what an empty drop does, nothing. *)
Theorem drop_and_select_agree {E : Engine} :
  (∀ files, handleFileSelect (Some files) = handleDrop files)
  ∧ handleFileSelect None = NoAction
  ∧ (∀ f rest, handleDrop (f :: rest) = handleDrop [f])
  ∧ (∀ p files, step p (SelectFiles (Some files)) = step p (DropFiles files))
  ∧ (∀ p, step p (SelectFiles None) = step p (DropFiles [])).
Proof. split_and!; try done; by intros [|??]. Qed.



(** X13.  The input controls never touch the outcome of a run: choosing or
    clearing a file, editing the command, clicking a preset or editing the
    output filename changes neither the result held (so a download link of
    an earlier run stays on the page) nor the processing flag nor the
    requests in flight. *)
Theorem inputs_keep_result {E : Engine} (p : Page) (e : Event) :
  is_input_event e = true →
  result (app (step p e)) = result (app p)
  ∧ isProcessing (app (step p e)) = isProcessing (app p)
  ∧ in_flight (step p e) = in_flight p
  ∧ handleDownload (app (step p e)) = handleDownload (app p).
Proof.
  intros He.
  assert (result (app (step p e)) = result (app p)) as Hres.
  { unfold step; simpl. rewrite run_effects_result. destruct e; try done; simpl.
    - by destruct (file (app p)), (handleDrop files).
    - by destruct (file (app p)), (handleFileSelect files).
    - by destruct (file (app p)).
    - by destruct (commonCommands !! index). }
  split_and!; [done | | |].
  - unfold step; simpl. rewrite run_effects_isProcessing. destruct e; try done; simpl.
    + by destruct (file (app p)), (handleDrop files).
    + by destruct (file (app p)), (handleFileSelect files).
    + by destruct (file (app p)).
    + by destruct (commonCommands !! index).
  - unfold step; simpl. destruct e; try done; simpl.
    + by destruct (file (app p)).
    + by destruct (file (app p)).
    + by destruct (file (app p)).
    + by destruct (commonCommands !! index).
  - unfold handleDownload. by rewrite Hres.
Qed.

Lemma inputs_keep_result_witness :
  handleDownload
    (app (step (E := ecma)
            (step (E := ecma) uploading (RequestSettled (Resolved processed)))
            ClearFile))
  = Some (JStr "/api/download/j1/out.mp4", "_blank").
Proof.
  refine (eq_trans (proj2 (proj2 (proj2 (inputs_keep_result (E := ecma)
             (step (E := ecma) uploading (RequestSettled (Resolved processed)))
             ClearFile eq_refl)))) _).
  by vm_compute.
Defined.

